(** * M100 Free Memory Watcher (MK4duo, src/utility/M100_Free_Mem_Chk.cpp)

    A shallow embedding of the free-memory watcher and the properties of
    its operations: the run-measuring primitive, the pool initializer, the
    two block scanners, the fault injector, the hex dumper and the
    first-call lifecycle of [gcode_M100].

    Target conventions.  The source casts pointers to [uint16_t]
    (lines 106-107, 142-143) and reads the avr-libc symbols [__brkval] and
    [__bss_end]: it is AVR code, where [int] and [ptrdiff_t] are 16 bits
    wide, [uint16_t] is [unsigned int] and [int16_t] is [int].
    - Integers are [Z]; every conversion to a 16-bit type is written with
      [u16] or [s16].
    - A byte of memory is a [Z] in [0, 256); [char] is the signed 8-bit view
      [char_of] of it.
    - A pointer is an address in [Z]; memory is a total map from addresses
      to bytes.  Pointer arithmetic is not wrapped (C gives no meaning to a
      pointer that leaves its object by overflow).
    - Serial output is left out, except where a property is about it.
    - [M100_FREE_MEMORY_DUMPER] and [M100_FREE_MEMORY_CORRUPTOR] are taken
      as enabled. *)

From Stdlib Require Import ZArith Lia List Bool.
Import ListNotations.
Local Open Scope Z_scope.

(** ** Machine integers *)

Definition u16 (x : Z) : Z := x mod 65536.

Definition s16 (x : Z) : Z := (x + 32768) mod 65536 - 32768.

(** [char] seen as a signed 8-bit value. *)
Definition char_of (b : Z) : Z := (b + 128) mod 256 - 128.

(** The byte stored by an assignment of the integer [x] to a [char]. *)
Definition byte_of (x : Z) : Z := x mod 256.

(** ** Memory *)

Definition memory := Z -> Z.

Definition store (m : memory) (a v : Z) : memory :=
  fun x => if x =? a then v else m x.

(** [memset(p, c, n)] *)
Definition memset (m : memory) (p c n : Z) : memory :=
  fun x => if (p <=? x) && (x <? p + n) then byte_of c else m x.

(** [#define TEST_BYTE ((char) 0xE5)] *)
Definition TEST_BYTE : Z := char_of 0xE5.

Definition is_test_byte (b : Z) : bool := char_of b =? TEST_BYTE.

(** ** Outcome of a loop whose index the body also moves *)

Inductive outcome (A : Type) : Type :=
| Done (a : A)
| Overflow      (* a signed 16-bit index left its range: undefined in C *)
| OutOfFuel.    (* the iteration budget of the model ran out *)
Arguments Done {A} a.
Arguments Overflow {A}.
Arguments OutOfFuel {A}.

(** ** count_test_bytes (lines 78-84)

    [fuel] only makes the recursion structural; the loop is bounded by its
    own test [i < 32000]. *)
Fixpoint count_test_bytes_loop (fuel : nat) (m : memory) (ptr i : Z) : Z :=
  match fuel with
  | O => -1
  | S fuel' =>
      if i <? 32000 then
        if negb (is_test_byte (m (ptr + i)))
        then s16 (u16 (i - 1))
        else count_test_bytes_loop fuel' m ptr (u16 (i + 1))
      else -1
  end.

Definition count_test_bytes (m : memory) (ptr : Z) : Z :=
  count_test_bytes_loop (Z.to_nat 32001) m ptr 0.

(** The maximal run of test bytes that starts at [p] has length [L]. *)
Definition run_at (m : memory) (p L : Z) : Prop :=
  (forall k, 0 <= k < L -> is_test_byte (m (p + k)) = true) /\
  is_test_byte (m (p + L)) = false.

(** ** init_free_memory (lines 210-232) *)

Inductive init_result : Type :=
| Unable                                    (* "Unable to initialize." *)
| Initialized (size : Z) (anomalies : list Z).
                    (* "<size> bytes of memory initialized." and the
                       addresses that did not read back as the test byte *)

(** The read-back loop of lines 226-231. *)
Definition read_back (m : memory) (ptr size : Z) : list Z :=
  filter (fun a => negb (is_test_byte (m a)))
         (map (fun i => ptr + Z.of_nat i) (seq 0 (Z.to_nat size))).

Definition init_free_memory (m : memory) (ptr size : Z)
  : memory * init_result :=
  let size := s16 (size - 250) in
  if size <? 0 then (m, Unable)
  else
    let ptr := ptr + 8 in
    let m' := memset m ptr TEST_BYTE size in
    (m', Initialized size (read_back m' ptr size)).

(** ** check_for_free_memory_corruption (lines 267-326)

    The scan loop of lines 295-309.  [i], [n] and [block_cnt] are [int],
    [j] is [int16_t].  [probes] logs the addresses whose byte the loop
    reads at line 297. *)
Fixpoint check_scan (fuel : nat) (m : memory) (ptr n i block_cnt : Z)
                    (probes : list Z) : outcome (Z * list Z) :=
  match fuel with
  | O => OutOfFuel
  | S fuel' =>
      if i <? n then
        let probes' := probes ++ [ptr + i] in
        if is_test_byte (m (ptr + i)) then
          let j := count_test_bytes m (ptr + i) in
          if j >? 8 then
            if i + j + 1 >? 32767 then Overflow
            else check_scan fuel' m ptr n (i + j + 1) (block_cnt + 1) probes'
          else check_scan fuel' m ptr n (i + 1) block_cnt probes'
        else check_scan fuel' m ptr n (i + 1) block_cnt probes'
      else Done (block_cnt, probes)
  end.

Record check_report : Type := {
  collision : bool;             (* " sp < Heap " was printed *)
  dump_request : option (Z * Z);(* the range handed to M100_dump_routine *)
  probed : list Z;              (* addresses read by the scan loop *)
  block_found : Z;              (* "  block_found=" *)
  corruption_msg : bool;        (* "Memory Corruption detected ..." *)
  ret : Z                       (* the value returned *)
}.

(** [brkval] is the value of [__brkval]; [ptr] is [END_OF_HEAP()] and [sp]
    is [top_of_stack()] as seen from this call. *)
Definition check_for_free_memory_corruption
    (m : memory) (brkval ptr sp : Z) : outcome check_report :=
  let n := s16 (sp - ptr) in
  let coll := sp <? ptr in
  match check_scan (Z.to_nat n + 1) m ptr n 0 0 [] with
  | Done (block_cnt, probes) =>
      Done {| collision := coll;
              dump_request := if coll then Some (0x1B80, 0x21FF) else None;
              probed := probes;
              block_found := block_cnt;
              corruption_msg := negb (block_cnt =? 1) || negb (brkval =? 0);
              ret := let block_cnt := if block_cnt =? 0 then -1 else block_cnt in
                     if block_cnt =? 1 then 0 else block_cnt |}
  | Overflow => Overflow
  | OutOfFuel => OutOfFuel
  end.

(** ** free_memory_pool_report (lines 154-181)

    [i], [j] and [block_cnt] are [uint16_t], [max_cnt] is [int16_t].  The
    comparisons [j > 8] and [j > max_cnt] mix [unsigned int] with [int]
    and so are made on the unsigned values.  [found] lists the pairs
    printed by "Found <j> bytes free at <addr>". *)
Record pool_report : Type := {
  max_cnt : Z;
  block_cnt : Z;
  max_addr : Z;                 (* 0 is NULL *)
  found : list (Z * Z)          (* (j, addr) *)
}.

Fixpoint report_scan (fuel : nat) (m : memory) (ptr size i : Z)
                     (r : pool_report) : outcome pool_report :=
  match fuel with
  | O => OutOfFuel
  | S fuel' =>
      if i <? size then
        let addr := ptr + i in
        if is_test_byte (m addr) then
          let j := u16 (count_test_bytes m addr) in
          if j >? 8 then
            let bigger := j >? u16 (max_cnt r) in
            report_scan fuel' m ptr size (u16 (u16 (i + j) + 1))
              {| max_cnt := if bigger then s16 j else max_cnt r;
                 block_cnt := u16 (block_cnt r + 1);
                 max_addr := if bigger then addr else max_addr r;
                 found := found r ++ [(j, addr)] |}
          else report_scan fuel' m ptr size (u16 (i + 1)) r
        else report_scan fuel' m ptr size (u16 (i + 1)) r
      else Done r
  end.

(** The report and the value of the call of line 180.  [sp_check] is the
    top of the stack as seen from [check_for_free_memory_corruption]. *)
Definition free_memory_pool_report
    (fuel : nat) (m : memory) (brkval sp_check ptr size : Z)
  : outcome pool_report * outcome check_report :=
  (report_scan fuel m ptr (u16 size) 0
     {| max_cnt := -1; block_cnt := 0; max_addr := 0; found := [] |},
   check_for_free_memory_corruption m brkval ptr sp_check).

(** ** corrupt_free_memory (lines 189-203)

    [size], [near_top], [j] and [i] are [uint16_t]; [size + 1] and [i * j]
    are computed in [unsigned int].  The result is [None] when the divisor
    of line 193 is zero.  [tos] is [top_of_stack()] as seen from this
    call.  The address [ptr + i * j] is not wrapped: the definition is the
    code as long as [ptr + 8 + size * j] stays below 65536. *)
Fixpoint corrupt_loop (fuel : nat) (m : memory) (ptr size j i : Z)
                      (touched : list Z) : memory * list Z :=
  match fuel with
  | O => (m, touched)
  | S fuel' =>
      if i <=? size then
        let addr := ptr + u16 (i * j) in
        corrupt_loop fuel' (store m addr (byte_of i)) ptr size j
                     (u16 (i + 1)) (touched ++ [addr])
      else (m, touched)
  end.

Definition corrupt_free_memory
    (seen_C : bool) (tos : Z) (m : memory) (ptr size : Z)
  : option (memory * list Z) :=
  if seen_C then
    let ptr := ptr + 8 in
    let near_top := u16 (tos - ptr - 250) in
    let divisor := u16 (size + 1) in
    if divisor =? 0 then None
    else
      let j := near_top / divisor in
      Some (corrupt_loop (Z.to_nat size + 1) m ptr size j 1 [])
  else Some (m, []).

(** ** dump_free_memory and M100_dump_routine (lines 101-145) *)

(** [extern char command_queue[BUFSIZE][MAX_CMD_SIZE]]: the address of the
    array and its two dimensions, which are configuration constants. *)
Record cmd_buffer : Type := {
  command_queue : Z;
  BUFSIZE : Z;
  MAX_CMD_SIZE : Z
}.

(** The bytes of the array itself, as declared at line 55. *)
Definition in_command_queue (q : cmd_buffer) (a : Z) : bool :=
  (command_queue q <=? a) && (a <? command_queue q + BUFSIZE q * MAX_CMD_SIZE q).

(** The test of line 122:
    [&ptr[i] >= command_queue && &ptr[i] < &command_queue[BUFSIZE][MAX_CMD_SIZE]]. *)
Definition in_command_buffer_area (q : cmd_buffer) (a : Z) : bool :=
  (command_queue q <=? a) &&
  (a <? command_queue q + BUFSIZE q * MAX_CMD_SIZE q + MAX_CMD_SIZE q).

(** Modelled from the spec: the macro [WITHIN] is defined outside the
    supplied sources; it is the inclusive range test that line 123 uses for
    the printable codes. *)
Definition WITHIN (v l h : Z) : bool := (l <=? v) && (v <=? h).

Definition blank : Z := 32.       (* ' ' *)
Definition anomaly : Z := 63.     (* '?' *)

(** The character printed at line 128 for the byte at address [a]. *)
Definition flag_char (q : cmd_buffer) (m : memory) (a : Z) : Z :=
  let ccc := char_of (m a) in
  if in_command_buffer_area q a then
    if negb (WITHIN ccc blank 0x7E) then blank else ccc
  else
    if ccc =? TEST_BYTE then blank else anomaly.

Record dump_row : Type := {
  row_addr : Z;           (* print_hex_word((uint16_t)ptr) *)
  row_bytes : list Z;     (* the 16 data bytes *)
  row_flags : list Z      (* the 16 characters after '|' *)
}.

Definition row_offsets : list Z :=
  [0; 1; 2; 3; 4; 5; 6; 7; 8; 9; 10; 11; 12; 13; 14; 15].

Definition dump_row_at (q : cmd_buffer) (m : memory) (ptr : Z) : dump_row :=
  {| row_addr := u16 ptr;
     row_bytes := map (fun i => m (ptr + i)) row_offsets;
     row_flags := map (fun i => flag_char q m (ptr + i)) row_offsets |}.

Fixpoint dump_loop (fuel : nat) (q : cmd_buffer) (m : memory) (ptr sp : Z)
  : outcome (list dump_row) :=
  match fuel with
  | O => OutOfFuel
  | S fuel' =>
      if ptr <? sp then
        match dump_loop fuel' q m (ptr + 16) sp with
        | Done rows => Done (dump_row_at q m ptr :: rows)
        | o => o
        end
      else Done []
  end.

Definition align_down (ptr : Z) : Z := Z.land (u16 ptr) 0xFFF0.
Definition align_up (sp : Z) : Z := Z.lor (u16 sp) 0x000F.

Definition dump_free_memory (q : cmd_buffer) (m : memory) (ptr sp : Z)
  : outcome (list dump_row) :=
  let ptr := align_down ptr in
  let sp := align_up sp in
  dump_loop (Z.to_nat (sp - ptr) + 1) q m ptr sp.

Definition M100_dump_routine (q : cmd_buffer) (m : memory) (start end_ : Z)
  : outcome (list dump_row) :=
  dump_free_memory q m (align_down start) (align_up end_).

(** ** gcode_M100 (lines 237-265) *)

(** What [code_seen] and [code_value_int] answer for one command line. *)
Record gcode : Type := {
  seen_I : bool;
  seen_D : bool;
  seen_F : bool;
  seen_C : bool;
  value_int : Z
}.

(** The memory layout at one invocation: [__brkval], [&__bss_end], the
    value of [top_of_stack()] in [gcode_M100] and in the functions it
    calls. *)
Record layout : Type := {
  brkval : Z;
  bss_end : Z;
  tos_M100 : Z;
  tos_callee : Z
}.

(** [#define END_OF_HEAP() (__brkval ? __brkval : &__bss_end)] *)
Definition END_OF_HEAP (l : layout) : Z :=
  if brkval l =? 0 then bss_end l else brkval l.

Record M100_state : Type := {
  m100_not_initialized : bool;      (* the static flag of line 247 *)
  mem : memory
}.

Inductive M100_action : Type :=
| DidDump (rows : outcome (list dump_row))
| DidReport (r : outcome pool_report) (c : outcome check_report)
| DidCorrupt (touched : list Z)
| DividedByZero
| DidNothing.

Record M100_trace : Type := {
  init_run : option init_result;    (* [Some] when line 250 ran *)
  action : M100_action
}.

Definition gcode_M100 (fuel : nat) (q : cmd_buffer) (l : layout) (g : gcode)
                      (st : M100_state) : M100_state * M100_trace :=
  let ptr := END_OF_HEAP l in
  let sp := tos_M100 l in
  let '(flag, m, ini) :=
    if m100_not_initialized st || seen_I g then
      let '(m', r) := init_free_memory (mem st) ptr (s16 (sp - ptr)) in
      (false, m', Some r)
    else (m100_not_initialized st, mem st, None) in
  if seen_D g then
    ({| m100_not_initialized := flag; mem := m |},
     {| init_run := ini; action := DidDump (dump_free_memory q m ptr sp) |})
  else if seen_F g then
    let '(r, c) := free_memory_pool_report fuel m (brkval l) (tos_callee l)
                                           ptr (sp - ptr) in
    ({| m100_not_initialized := flag; mem := m |},
     {| init_run := ini; action := DidReport r c |})
  else if seen_C g then
    match corrupt_free_memory (seen_C g) (tos_callee l) m ptr
                              (u16 (value_int g)) with
    | Some (m', touched) =>
        ({| m100_not_initialized := flag; mem := m' |},
         {| init_run := ini; action := DidCorrupt touched |})
    | None =>
        ({| m100_not_initialized := flag; mem := m |},
         {| init_run := ini; action := DividedByZero |})
    end
  else
    ({| m100_not_initialized := flag; mem := m |},
     {| init_run := ini; action := DidNothing |}).


(** ** Reading the result of a scan *)

(** The block count of a scan, without its log of probes. *)
Definition scan_count (o : outcome (Z * list Z)) : outcome Z :=
  match o with
  | Done (c, _) => Done c
  | Overflow => Overflow
  | OutOfFuel => OutOfFuel
  end.

(** From index [i] with [c] blocks counted, the scan loop of the check
    ends with [R] blocks, whatever fuel above [n - i] (and at least one
    unit, for the last test of [i < n]) it is given. *)
Definition scans_to (m : memory) (ptr n i c R : Z) : Prop :=
  forall (fuel : nat) (ps : list Z),
    Z.max 0 (n - i) < Z.of_nat fuel ->
    scan_count (check_scan fuel m ptr n i c ps) = Done R.

(** The classification of lines 315-325. *)
Definition classify (block_cnt : Z) : Z :=
  if block_cnt =? 0 then -1 else if block_cnt =? 1 then 0 else block_cnt.

(** From index [i] with report [r], the scan loop of the report ends with
    report [R]. *)
Definition reports_to (m : memory) (ptr size i : Z) (r R : pool_report)
  : Prop :=
  forall fuel : nat,
    Z.max 0 (size - i) < Z.of_nat fuel ->
    report_scan fuel m ptr size i r = Done R.

(** No test byte in the two margins that [init_free_memory] leaves alone:
    the 8 bytes at the heap end and the bytes from the end of the fill up
    to the stack top. *)
Definition margins_clear (m : memory) (ptr S : Z) : Prop :=
  forall a, ptr <= a < ptr + 8 \/ ptr + S - 242 <= a < ptr + S ->
            is_test_byte (m a) = false.

(** A memory without any test byte, for the scenarios. *)
Definition zero_memory : memory := fun _ => 0.

(** ** The block count in the words of the specification

    "A run counts as a block only if its length exceeds a minimum threshold
    (8 bytes)": the maximal runs of test bytes among the [n] scanned bytes,
    and how many of them are longer than 8. *)
Fixpoint spec_run_lengths (bs : list bool) (cur : Z) : list Z :=
  match bs with
  | [] => if cur =? 0 then [] else [cur]
  | true :: bs' => spec_run_lengths bs' (cur + 1)
  | false :: bs' =>
      if cur =? 0 then spec_run_lengths bs' 0
      else cur :: spec_run_lengths bs' 0
  end.

Definition scanned_bytes (m : memory) (ptr n : Z) : list bool :=
  map (fun i => is_test_byte (m (ptr + Z.of_nat i))) (seq 0 (Z.to_nat n)).

Definition spec_block_count (m : memory) (ptr n : Z) : Z :=
  Z.of_nat (length (filter (fun L => L >? 8)
                           (spec_run_lengths (scanned_bytes m ptr n) 0))).

(** ** Reading the rows of a dump *)

(** [k] consecutive rows from address [a]. *)
Fixpoint rows_from (q : cmd_buffer) (m : memory) (a : Z) (k : nat)
  : list dump_row :=
  match k with
  | O => []
  | S k' => dump_row_at q m a :: rows_from q m (a + 16) k'
  end.

(** The row [r] shows the byte at address [a]. *)
Definition covers (r : dump_row) (a : Z) : Prop :=
  row_addr r <= a < row_addr r + 16.

(** The quotient rounded up. *)
Definition ceil_div (x d : Z) : Z := (x + d - 1) / d.

(** ** Reading the report *)

(** The report as [free_memory_pool_report] starts it (lines 155-157). *)
Definition empty_report : pool_report :=
  {| max_cnt := -1; block_cnt := 0; max_addr := 0; found := [] |}.



(** ** ultralcd.h: the masks of the REPRAPWORLD keypad (lines 117-156)

    [_BV] is the avr-libc macro [(1 << (bit))].  [buttons] and
    [buttons_reprapworld_keypad] are the bit arrays that the macros test;
    they are arguments here. *)
Definition _BV (bit : Z) : Z := Z.shiftl 1 bit.

Definition BLEN_C : Z := 2.
Definition EN_C : Z := _BV BLEN_C.

Definition REPRAPWORLD_BTN_OFFSET : Z := 0.
Definition BLEN_REPRAPWORLD_KEYPAD_F3 : Z := 0.
Definition BLEN_REPRAPWORLD_KEYPAD_F2 : Z := 1.
Definition BLEN_REPRAPWORLD_KEYPAD_F1 : Z := 2.
Definition BLEN_REPRAPWORLD_KEYPAD_DOWN : Z := 3.
Definition BLEN_REPRAPWORLD_KEYPAD_RIGHT : Z := 4.
Definition BLEN_REPRAPWORLD_KEYPAD_MIDDLE : Z := 5.
Definition BLEN_REPRAPWORLD_KEYPAD_UP : Z := 6.
Definition BLEN_REPRAPWORLD_KEYPAD_LEFT : Z := 7.

Definition EN_REPRAPWORLD_KEYPAD_F3 : Z :=
  _BV (REPRAPWORLD_BTN_OFFSET + BLEN_REPRAPWORLD_KEYPAD_F3).
Definition EN_REPRAPWORLD_KEYPAD_F2 : Z :=
  _BV (REPRAPWORLD_BTN_OFFSET + BLEN_REPRAPWORLD_KEYPAD_F2).
Definition EN_REPRAPWORLD_KEYPAD_F1 : Z :=
  _BV (REPRAPWORLD_BTN_OFFSET + BLEN_REPRAPWORLD_KEYPAD_F1).
Definition EN_REPRAPWORLD_KEYPAD_DOWN : Z :=
  _BV (REPRAPWORLD_BTN_OFFSET + BLEN_REPRAPWORLD_KEYPAD_DOWN).
Definition EN_REPRAPWORLD_KEYPAD_RIGHT : Z :=
  _BV (REPRAPWORLD_BTN_OFFSET + BLEN_REPRAPWORLD_KEYPAD_RIGHT).
Definition EN_REPRAPWORLD_KEYPAD_MIDDLE : Z :=
  _BV (REPRAPWORLD_BTN_OFFSET + BLEN_REPRAPWORLD_KEYPAD_MIDDLE).
Definition EN_REPRAPWORLD_KEYPAD_UP : Z :=
  _BV (REPRAPWORLD_BTN_OFFSET + BLEN_REPRAPWORLD_KEYPAD_UP).
Definition EN_REPRAPWORLD_KEYPAD_LEFT : Z :=
  _BV (REPRAPWORLD_BTN_OFFSET + BLEN_REPRAPWORLD_KEYPAD_LEFT).

Definition REPRAPWORLD_KEYPAD_MOVE_Z_DOWN (keypad : Z) : Z :=
  Z.land keypad EN_REPRAPWORLD_KEYPAD_F3.
Definition REPRAPWORLD_KEYPAD_MOVE_Z_UP (keypad : Z) : Z :=
  Z.land keypad EN_REPRAPWORLD_KEYPAD_F2.
Definition REPRAPWORLD_KEYPAD_MOVE_Y_DOWN (keypad : Z) : Z :=
  Z.land keypad EN_REPRAPWORLD_KEYPAD_DOWN.
Definition REPRAPWORLD_KEYPAD_MOVE_X_RIGHT (keypad : Z) : Z :=
  Z.land keypad EN_REPRAPWORLD_KEYPAD_RIGHT.
Definition REPRAPWORLD_KEYPAD_MOVE_HOME (keypad : Z) : Z :=
  Z.land keypad EN_REPRAPWORLD_KEYPAD_MIDDLE.
Definition REPRAPWORLD_KEYPAD_MOVE_Y_UP (keypad : Z) : Z :=
  Z.land keypad EN_REPRAPWORLD_KEYPAD_UP.
Definition REPRAPWORLD_KEYPAD_MOVE_X_LEFT (keypad : Z) : Z :=
  Z.land keypad EN_REPRAPWORLD_KEYPAD_LEFT.

Definition REPRAPWORLD_KEYPAD_PRESSED (keypad : Z) : Z :=
  Z.land keypad
    (Z.lor EN_REPRAPWORLD_KEYPAD_F3
    (Z.lor EN_REPRAPWORLD_KEYPAD_F2
    (Z.lor EN_REPRAPWORLD_KEYPAD_F1
    (Z.lor EN_REPRAPWORLD_KEYPAD_DOWN
    (Z.lor EN_REPRAPWORLD_KEYPAD_RIGHT
    (Z.lor EN_REPRAPWORLD_KEYPAD_MIDDLE
    (Z.lor EN_REPRAPWORLD_KEYPAD_UP
           EN_REPRAPWORLD_KEYPAD_LEFT))))))).

(** [LCD_CLICKED] with the keypad (line 156); a C condition is true when it
    is not zero. *)
Definition LCD_CLICKED (buttons keypad : Z) : bool :=
  negb (Z.land buttons EN_C =? 0)
  || negb (Z.land keypad EN_REPRAPWORLD_KEYPAD_F1 =? 0).

(** * Properties *)

#[local] Ltac Zify.zify_post_hook ::= Z.to_euclidean_division_equations.

(** Settle a boolean comparison of integers that arithmetic decides. *)
Ltac cmp_true e :=
  replace e with true
    by (symmetry;
        first [ apply Z.ltb_lt | apply Z.leb_le | apply Z.eqb_eq
              | rewrite Z.gtb_ltb; apply Z.ltb_lt ]; lia).
Ltac cmp_false e :=
  replace e with false
    by (symmetry;
        first [ apply Z.ltb_ge | apply Z.leb_gt | apply Z.eqb_neq
              | rewrite Z.gtb_ltb; apply Z.ltb_ge ]; lia).

(** ** Machine integers and bytes *)

Lemma u16_small (x : Z) : 0 <= x < 65536 -> u16 x = x.
Proof. unfold u16; lia. Qed.

Lemma s16_small (x : Z) : -32768 <= x < 32768 -> s16 x = x.
Proof. unfold s16; lia. Qed.

Lemma is_test_byte_iff (b : Z) :
  0 <= b < 256 -> (is_test_byte b = true <-> b = 0xE5).
Proof.
  unfold is_test_byte, TEST_BYTE, char_of; intros Hb.
  rewrite Z.eqb_eq; lia.
Qed.

Lemma is_test_byte_TEST_BYTE : is_test_byte (byte_of TEST_BYTE) = true.
Proof. reflexivity. Qed.

Lemma is_test_byte_small (b : Z) :
  0 <= b < 0xE5 -> is_test_byte b = false.
Proof.
  unfold is_test_byte, TEST_BYTE, char_of; intros Hb.
  apply Z.eqb_neq; lia.
Qed.

(** ** Memory *)

Lemma memset_inside (m : memory) (p c n a : Z) :
  p <= a < p + n -> memset m p c n a = byte_of c.
Proof.
  intros Ha; unfold memset.
  replace (p <=? a) with true by (symmetry; apply Z.leb_le; lia).
  replace (a <? p + n) with true by (symmetry; apply Z.ltb_lt; lia).
  reflexivity.
Qed.

Lemma memset_outside (m : memory) (p c n a : Z) :
  a < p \/ p + n <= a -> memset m p c n a = m a.
Proof.
  intros Ha; unfold memset.
  destruct (Z.leb_spec p a), (Z.ltb_spec a (p + n)); simpl; trivial; lia.
Qed.

Lemma store_same (m : memory) (a v : Z) : store m a v a = v.
Proof. unfold store; now rewrite Z.eqb_refl. Qed.

Lemma store_other (m : memory) (a v x : Z) : x <> a -> store m a v x = m x.
Proof.
  intros Hx; unfold store.
  now replace (x =? a) with false by (symmetry; now apply Z.eqb_neq).
Qed.

(** ** count_test_bytes *)

Lemma count_test_bytes_loop_run (m : memory) (p L : Z) :
  run_at m p L -> 0 <= L < 32000 ->
  forall (fuel : nat) (i : Z),
    0 <= i <= L -> L - i < Z.of_nat fuel ->
    count_test_bytes_loop fuel m p i = L - 1.
Proof.
  intros [Hrun Hstop] HL fuel.
  induction fuel as [|fuel IH]; intros i Hi Hfuel; [lia|].
  cbn [count_test_bytes_loop].
  replace (i <? 32000) with true by (symmetry; apply Z.ltb_lt; lia).
  destruct (Z.eq_dec i L) as [->|Hne].
  - rewrite Hstop; cbn [negb]. unfold s16, u16; lia.
  - rewrite Hrun by lia; cbn [negb].
    rewrite u16_small by lia. apply IH; lia.
Qed.

(** What the code returns on a run of [L] test bytes: one less than [L]. *)
Lemma count_test_bytes_run (m : memory) (p L : Z) :
  run_at m p L -> 0 <= L < 32000 -> count_test_bytes m p = L - 1.
Proof.
  intros Hrun HL; unfold count_test_bytes.
  apply count_test_bytes_loop_run with (L := L); trivial; lia.
Qed.

(** ** The scan loop of the check *)

Lemma scans_to_end (m : memory) (ptr n i c : Z) :
  n <= i -> scans_to m ptr n i c c.
Proof.
  intros Hi [|fuel] ps Hfuel; [lia|].
  cbn [check_scan].
  now cmp_false (i <? n).
Qed.

Lemma scans_to_nontest (m : memory) (ptr n i c R : Z) :
  i < n -> is_test_byte (m (ptr + i)) = false ->
  scans_to m ptr n (i + 1) c R -> scans_to m ptr n i c R.
Proof.
  intros Hi Hb Hnext [|fuel] ps Hfuel; [lia|].
  cbn [check_scan].
  cmp_true (i <? n).
  rewrite Hb. apply Hnext; lia.
Qed.

Lemma scans_to_short (m : memory) (ptr n i c R : Z) :
  i < n -> count_test_bytes m (ptr + i) <= 8 ->
  scans_to m ptr n (i + 1) c R -> scans_to m ptr n i c R.
Proof.
  intros Hi Hj Hnext [|fuel] ps Hfuel; [lia|].
  cbn [check_scan].
  cmp_true (i <? n).
  cmp_false (count_test_bytes m (ptr + i) >? 8).
  destruct (is_test_byte (m (ptr + i))); apply Hnext; lia.
Qed.

Lemma scans_to_block (m : memory) (ptr n i c R L : Z) :
  0 <= i < n -> run_at m (ptr + i) L -> 10 <= L < 32000 ->
  i + L <= 32767 ->
  scans_to m ptr n (i + L) (c + 1) R -> scans_to m ptr n i c R.
Proof.
  intros Hi Hrun HL Hov Hnext [|fuel] ps Hfuel; [lia|].
  cbn [check_scan].
  cmp_true (i <? n).
  destruct Hrun as [Hrun Hstop].
  assert (Hfirst : is_test_byte (m (ptr + i)) = true).
  { specialize (Hrun 0); rewrite Z.add_0_r in Hrun; apply Hrun; lia. }
  rewrite Hfirst.
  rewrite (count_test_bytes_run m (ptr + i) L) by (split; trivial; lia).
  cmp_true (L - 1 >? 8).
  cmp_false (i + (L - 1) + 1 >? 32767).
  replace (i + (L - 1) + 1) with (i + L) by lia.
  apply Hnext; lia.
Qed.

Lemma scans_to_gap (m : memory) (ptr n c R : Z) (k : nat) :
  forall i,
    i + Z.of_nat k <= n ->
    (forall x, i <= x < i + Z.of_nat k -> is_test_byte (m (ptr + x)) = false) ->
    scans_to m ptr n (i + Z.of_nat k) c R -> scans_to m ptr n i c R.
Proof.
  induction k as [|k IH]; intros i Hn Hgap Hnext.
  - now rewrite Z.add_0_r in Hnext.
  - apply scans_to_nontest; [lia | apply Hgap; lia |].
    apply IH; [lia | intros x Hx; apply Hgap; lia |].
    now replace (i + 1 + Z.of_nat k) with (i + Z.of_nat (S k)) by lia.
Qed.

Lemma scans_to_tail (m : memory) (ptr n i c : Z) :
  i <= n ->
  (forall x, i <= x < n -> is_test_byte (m (ptr + x)) = false) ->
  scans_to m ptr n i c c.
Proof.
  intros Hi Hgap.
  apply (scans_to_gap m ptr n c c (Z.to_nat (n - i)) i);
    [lia | intros x Hx; apply Hgap; lia | apply scans_to_end; lia].
Qed.

(** The check, read off its scan. *)
Lemma check_of_scan (m : memory) (brk ptr sp R : Z) :
  scans_to m ptr (s16 (sp - ptr)) 0 0 R ->
  exists rep,
    check_for_free_memory_corruption m brk ptr sp = Done rep /\
    block_found rep = R /\ ret rep = classify R /\
    collision rep = (sp <? ptr).
Proof.
  intros Hscan; unfold check_for_free_memory_corruption.
  assert (Hfuel : Z.max 0 (s16 (sp - ptr) - 0)
                  < Z.of_nat (Z.to_nat (s16 (sp - ptr)) + 1)) by lia.
  specialize (Hscan _ [] Hfuel).
  destruct (check_scan _ m ptr _ 0 0 []) as [[c ps]| |];
    cbn [scan_count] in Hscan; try discriminate Hscan.
  injection Hscan as ->.
  eexists; split; [reflexivity|].
  cbn [block_found ret collision]. unfold classify.
  repeat split.
  destruct (Z.eqb_spec R 0) as [->|]; reflexivity.
Qed.

(** ** The scan loop of the report *)

Lemma reports_to_end (m : memory) (ptr size i : Z) (r : pool_report) :
  size <= i -> reports_to m ptr size i r r.
Proof.
  intros Hi [|fuel] Hfuel; [lia|].
  cbn [report_scan]. now cmp_false (i <? size).
Qed.

Lemma reports_to_nontest (m : memory) (ptr size i : Z) (r R : pool_report) :
  0 <= i < size -> size <= 65535 ->
  is_test_byte (m (ptr + i)) = false ->
  reports_to m ptr size (i + 1) r R -> reports_to m ptr size i r R.
Proof.
  intros Hi Hsize Hb Hnext [|fuel] Hfuel; [lia|].
  cbn [report_scan]. cmp_true (i <? size).
  rewrite Hb, u16_small by lia. apply Hnext; lia.
Qed.

Lemma reports_to_gap (m : memory) (ptr size : Z) (r R : pool_report)
      (k : nat) :
  forall i,
    0 <= i -> i + Z.of_nat k <= size -> size <= 65535 ->
    (forall x, i <= x < i + Z.of_nat k -> is_test_byte (m (ptr + x)) = false) ->
    reports_to m ptr size (i + Z.of_nat k) r R -> reports_to m ptr size i r R.
Proof.
  induction k as [|k IH]; intros i Hi Hn Hsize Hgap Hnext.
  - now rewrite Z.add_0_r in Hnext.
  - apply reports_to_nontest; [lia | lia | apply Hgap; lia |].
    apply IH; [lia | lia | lia | intros x Hx; apply Hgap; lia |].
    now replace (i + 1 + Z.of_nat k) with (i + Z.of_nat (S k)) by lia.
Qed.

Lemma reports_to_block (m : memory) (ptr size i L : Z) (r R : pool_report) :
  0 <= i < size -> run_at m (ptr + i) L -> 10 <= L < 32000 ->
  i + L <= 65535 ->
  reports_to m ptr size (i + L)
    {| max_cnt := if L - 1 >? u16 (max_cnt r) then L - 1 else max_cnt r;
       block_cnt := u16 (block_cnt r + 1);
       max_addr := if L - 1 >? u16 (max_cnt r) then ptr + i else max_addr r;
       found := found r ++ [(L - 1, ptr + i)] |} R ->
  reports_to m ptr size i r R.
Proof.
  intros Hi Hrun HL Hov Hnext [|fuel] Hfuel; [lia|].
  cbn [report_scan]. cmp_true (i <? size).
  assert (Hfirst : is_test_byte (m (ptr + i)) = true).
  { destruct Hrun as [Hrun _].
    specialize (Hrun 0); rewrite Z.add_0_r in Hrun; apply Hrun; lia. }
  rewrite Hfirst, (count_test_bytes_run m (ptr + i) L) by (trivial; lia).
  rewrite (u16_small (L - 1)) by lia.
  cmp_true (L - 1 >? 8).
  rewrite (s16_small (L - 1)) by lia.
  rewrite (u16_small (i + (L - 1))), (u16_small (i + (L - 1) + 1)) by lia.
  replace (i + (L - 1) + 1) with (i + L) by lia.
  apply Hnext; lia.
Qed.

(** ** init_free_memory *)

Lemma init_free_memory_fill (m : memory) (ptr S : Z) :
  250 <= S <= 32767 ->
  init_free_memory m ptr S =
    (memset m (ptr + 8) TEST_BYTE (S - 250),
     Initialized (S - 250)
       (read_back (memset m (ptr + 8) TEST_BYTE (S - 250)) (ptr + 8) (S - 250))).
Proof.
  intros HS; unfold init_free_memory.
  rewrite s16_small by lia. now cmp_false (S - 250 <? 0).
Qed.

Lemma init_free_memory_run (m : memory) (ptr S : Z) :
  250 <= S <= 32767 -> margins_clear m ptr S ->
  run_at (fst (init_free_memory m ptr S)) (ptr + 8) (S - 250).
Proof.
  intros HS Hclear; rewrite init_free_memory_fill by trivial; cbn [fst].
  split.
  - intros k Hk. rewrite memset_inside by lia. reflexivity.
  - rewrite memset_outside by lia. apply Hclear; lia.
Qed.

(** ** C1: initialize, then scan *)

Lemma init_then_scans_to (m : memory) (ptr S N : Z) :
  260 <= S <= 32249 -> margins_clear m ptr S ->
  S - 242 <= N <= S ->
  scans_to (fst (init_free_memory m ptr S)) ptr N 0 0 1.
Proof.
  intros HS Hclear HN.
  pose proof (init_free_memory_run m ptr S ltac:(lia) Hclear) as Hrun.
  assert (Hout : forall x, 0 <= x < 8 \/ S - 242 <= x < S ->
            is_test_byte (fst (init_free_memory m ptr S) (ptr + x)) = false).
  { intros x Hx. rewrite init_free_memory_fill by lia; cbn [fst].
    rewrite memset_outside by lia. apply Hclear; lia. }
  apply (scans_to_gap _ ptr N 0 1 8 0); [lia | intros; apply Hout; lia |].
  apply (scans_to_block _ ptr N _ 0 1 (S - 250)); [lia | exact Hrun | lia | lia |].
  apply scans_to_tail; [lia | intros; apply Hout; lia].
Qed.

Lemma init_then_reports_to (m : memory) (ptr S : Z) :
  260 <= S <= 32249 -> margins_clear m ptr S ->
  reports_to (fst (init_free_memory m ptr S)) ptr S 0
    {| max_cnt := -1; block_cnt := 0; max_addr := 0; found := [] |}
    {| max_cnt := -1; block_cnt := 1; max_addr := 0;
       found := [(S - 251, ptr + 8)] |}.
Proof.
  intros HS Hclear.
  pose proof (init_free_memory_run m ptr S ltac:(lia) Hclear) as Hrun.
  assert (Hout : forall x, 0 <= x < 8 \/ S - 242 <= x < S ->
            is_test_byte (fst (init_free_memory m ptr S) (ptr + x)) = false).
  { intros x Hx. rewrite init_free_memory_fill by lia; cbn [fst].
    rewrite memset_outside by lia. apply Hclear; lia. }
  apply (reports_to_gap _ ptr S _ _ 8 0); [lia | lia | lia | intros; apply Hout; lia |].
  apply (reports_to_block _ ptr S _ (S - 250)); [lia | exact Hrun | lia | lia |].
  cbn [max_cnt block_cnt max_addr found app].
  change (u16 (-1)) with 65535. change (u16 (0 + 1)) with 1.
  cmp_false (S - 250 - 1 >? 65535).
  replace (0 + Z.of_nat 8 + (S - 250)) with (S - 242) by lia.
  replace (S - 250 - 1) with (S - 251) by lia.
  replace (ptr + (0 + Z.of_nat 8)) with (ptr + 8) by lia.
  apply (reports_to_gap _ ptr S _ _ 242); [lia | lia | lia | intros; apply Hout; lia |].
  apply reports_to_end; lia.
Qed.

(** After [init_free_memory] on a region of [S] bytes, 260 <= S <= 32249,
    whose untouched margins hold no test byte: the fill is one run of
    [S - 250] test bytes at [ptr + 8]; the report of [M100 F] finds it as
    its only block and prints it with size [S - 251], leaving the
    largest-block variables at -1 and NULL; and the check (whose own stack
    top [sp_check] may lie up to 242 bytes lower) counts one block and
    returns 0. *)
Lemma init_then_scan_one_block (m : memory) (brk ptr S : Z) :
  260 <= S <= 32249 -> margins_clear m ptr S ->
  forall (fuel : nat) (sp_check : Z),
    S < Z.of_nat fuel -> ptr + S - 242 <= sp_check <= ptr + S ->
    run_at (fst (init_free_memory m ptr S)) (ptr + 8) (S - 250) /\
    exists rep,
      free_memory_pool_report fuel (fst (init_free_memory m ptr S))
                              brk sp_check ptr S
        = (Done {| max_cnt := -1; block_cnt := 1; max_addr := 0;
                   found := [(S - 251, ptr + 8)] |},
           Done rep) /\
      block_found rep = 1 /\ ret rep = 0.
Proof.
  intros HS Hclear fuel sp_check Hfuel Hsp.
  split; [apply init_free_memory_run; trivial; lia|].
  destruct (check_of_scan (fst (init_free_memory m ptr S)) brk ptr sp_check 1)
    as (rep & E & Hb & Hr & _).
  { rewrite s16_small by lia. apply init_then_scans_to; trivial; lia. }
  unfold free_memory_pool_report. rewrite E, u16_small by lia.
  rewrite (init_then_reports_to m ptr S HS Hclear fuel) by lia.
  eexists; split; [reflexivity|]. split; trivial.
Qed.

Lemma zero_memory_margins_clear (ptr S : Z) : margins_clear zero_memory ptr S.
Proof. intros a _; reflexivity. Qed.

Lemma init_then_scan_one_block_witness :
  run_at (fst (init_free_memory zero_memory 1000 2000)) (1000 + 8) (2000 - 250) /\
  exists rep,
    free_memory_pool_report 2001
      (fst (init_free_memory zero_memory 1000 2000)) 0 3000 1000 2000
      = (Done {| max_cnt := -1; block_cnt := 1; max_addr := 0;
                 found := [(2000 - 251, 1000 + 8)] |},
         Done rep) /\
    block_found rep = 1 /\ ret rep = 0.
Proof.
  apply (init_then_scan_one_block zero_memory 0 1000 2000).
  - lia.
  - apply zero_memory_margins_clear.
  - simpl; lia.
  - lia.
Defined.

(** Below the bound: a 259-byte region is initialized (nine test bytes),
    and the check then counts no block and returns -1. *)
Lemma init_then_check_259 :
  exists rep,
    check_for_free_memory_corruption
      (fst (init_free_memory zero_memory 1000 259)) 0 1000 1259 = Done rep /\
    block_found rep = 0 /\ ret rep = -1.
Proof. eexists; split; [vm_compute; reflexivity | split; reflexivity]. Qed.

(** On a 2000-byte region neither the size printed for the block nor the
    largest-block variable is 2000 - 8 - 250. *)
Lemma init_then_scan_length_counterexample :
  let m' := fst (init_free_memory zero_memory 1000 2000) in
  ~ (exists r,
        fst (free_memory_pool_report 2001 m' 0 3000 1000 2000) = Done r /\
        (max_cnt r = 2000 - 8 - 250 \/
         exists a, In (2000 - 8 - 250, a) (found r))).
Proof.
  intros m' (r & E & H).
  assert (E' : fst (free_memory_pool_report 2001 m' 0 3000 1000 2000) =
               Done {| max_cnt := -1; block_cnt := 1; max_addr := 0;
                       found := [(1749, 1008)] |}) by (vm_compute; reflexivity).
  rewrite E' in E; injection E as <-.
  cbn in H. destruct H as [H | [a [H | []]]]; [lia | injection H; lia].
Qed.

(** C1 (divergence).  On a region of 2000 bytes (heap end 1000, stack top
    3000, no test byte before), [init_free_memory] leaves one run of 1750
    test bytes at 1008, which ends 242 bytes below the stack top; the
    report of [M100 F] finds this one block and prints it with size 1749,
    its largest-block variables stay at -1 and NULL, and the check returns
    0.  The one block and the return value are as expected; the length
    2000 - 8 - 250 = 1742 is met neither by the run, nor by the size
    printed, nor by the largest-block variable. *)
Theorem init_2000_block_length :
  let m' := fst (init_free_memory zero_memory 1000 2000) in
  run_at m' 1008 1750 /\
  free_memory_pool_report 2001 m' 0 3000 1000 2000
  = (Done {| max_cnt := -1; block_cnt := 1; max_addr := 0;
             found := [(1749, 1008)] |},
     check_for_free_memory_corruption m' 0 1000 3000) /\
  (exists rep,
      check_for_free_memory_corruption m' 0 1000 3000 = Done rep /\
      block_found rep = 1 /\ ret rep = 0) /\
  1750 <> 2000 - 8 - 250 /\ 1749 <> 2000 - 8 - 250 /\ -1 <> 2000 - 8 - 250.
Proof.
  intros m'. split; [|split; [|split]].
  - apply (init_free_memory_run zero_memory 1000 2000);
      [lia | apply zero_memory_margins_clear].
  - unfold free_memory_pool_report. f_equal; vm_compute; reflexivity.
  - eexists; split; [vm_compute; reflexivity | split; reflexivity].
  - repeat split; discriminate.
Qed.

(** ** corrupt_free_memory *)

Lemma between_multiples (j t k x : Z) :
  0 < j -> t * j < x < (t + 1) * j -> x <> k * j.
Proof.
  intros Hj Hx E; subst x.
  assert (k <= t \/ t + 1 <= k) as [H|H] by lia; nia.
Qed.

Lemma corrupt_loop_untouched (p0 size j : Z) (fuel : nat) :
  forall (m : memory) (i : Z) (t : list Z) (a : Z),
    1 <= i -> size < 65535 -> 0 <= j -> size * j < 65536 ->
    (forall k, i <= k <= size -> a <> p0 + k * j) ->
    fst (corrupt_loop fuel m p0 size j i t) a = m a.
Proof.
  induction fuel as [|fuel IH]; intros m i t a Hi Hsize Hj Hmul Ha; [reflexivity|].
  cbn [corrupt_loop].
  destruct (Z.leb_spec i size) as [Hle|Hgt]; [|reflexivity].
  assert (Hij : 0 <= i * j <= size * j) by nia.
  rewrite (u16_small (i * j)), (u16_small (i + 1)) by lia.
  rewrite IH; try lia.
  - apply store_other, Ha; lia.
  - intros k Hk; apply Ha; lia.
Qed.

Lemma corrupt_loop_written (p0 size j : Z) (fuel : nat) :
  forall (m : memory) (i : Z) (t : list Z) (k : Z),
    1 <= i -> size < 65535 -> 0 < j -> size * j < 65536 ->
    size - i < Z.of_nat fuel ->
    i <= k <= size ->
    fst (corrupt_loop fuel m p0 size j i t) (p0 + k * j) = byte_of k.
Proof.
  induction fuel as [|fuel IH]; intros m i t k Hi Hsize Hj Hmul Hfuel Hk; [lia|].
  cbn [corrupt_loop]. cmp_true (i <=? size).
  assert (Hij : 0 <= i * j <= size * j) by nia.
  rewrite (u16_small (i * j)), (u16_small (i + 1)) by lia.
  destruct (Z.eq_dec k i) as [->|Hne].
  - rewrite corrupt_loop_untouched; try lia.
    + apply store_same.
    + intros k Hk'. assert (i * j < k * j) by nia. lia.
  - apply IH; lia.
Qed.

Lemma byte_of_not_test (k : Z) :
  1 <= k <= 228 -> is_test_byte (byte_of k) = false.
Proof.
  intros Hk; apply is_test_byte_small; unfold byte_of; lia.
Qed.

(** ** C6: the fault injector splits the pool into [n + 1] blocks *)

Section Corrupted.

Variables (m : memory) (ptr S tos n N : Z).

(** The stride of line 193 and the memory after [init_free_memory] and
    after the [n] writes of lines 196-200. *)
Let j : Z := (tos - (ptr + 8) - 250) / (n + 1).
Let m1 : memory := fst (init_free_memory m ptr S).
Let m2 : memory := fst (corrupt_loop (Z.to_nat n + 1) m1 (ptr + 8) n j 1 []).

Hypothesis HS : 260 <= S <= 32249.
Hypothesis Hclear : margins_clear m ptr S.
Hypothesis Hn : 1 <= n <= 228.
Hypothesis Htos : tos <= ptr + S.
Hypothesis Hj : 11 <= j.
Hypothesis HN : S - 242 <= N <= S.

Lemma corrupted_stride : (n + 1) * j <= S - 258 /\ n * j + j <= S - 258.
Proof.
  assert (H : (n + 1) * ((tos - (ptr + 8) - 250) / (n + 1))
              <= tos - (ptr + 8) - 250) by (apply Z.mul_div_le; lia).
  fold j in H. split; lia.
Qed.

Lemma corrupted_written (k : Z) :
  1 <= k <= n -> is_test_byte (m2 (ptr + 8 + k * j)) = false.
Proof.
  intros Hk. pose proof corrupted_stride as [_ Hs].
  unfold m2. rewrite corrupt_loop_written; try lia.
  apply byte_of_not_test; lia.
Qed.

Lemma corrupted_elsewhere (a : Z) :
  (forall k, 1 <= k <= n -> a <> ptr + 8 + k * j) -> m2 a = m1 a.
Proof.
  intros Ha. pose proof corrupted_stride as [_ Hs].
  unfold m2. apply corrupt_loop_untouched; trivial; lia.
Qed.

Lemma corrupted_filled (x : Z) :
  0 <= x < S - 250 -> (forall k, 1 <= k <= n -> x <> k * j) ->
  is_test_byte (m2 (ptr + 8 + x)) = true.
Proof.
  intros Hx Hne. rewrite corrupted_elsewhere.
  - unfold m1. rewrite init_free_memory_fill by lia; cbn [fst].
    rewrite memset_inside by lia. reflexivity.
  - intros k Hk E. apply (Hne k Hk). lia.
Qed.

Lemma corrupted_margins (x : Z) :
  0 <= x < 8 \/ S - 242 <= x < S -> is_test_byte (m2 (ptr + x)) = false.
Proof.
  intros Hx. pose proof corrupted_stride as [_ Hs].
  rewrite corrupted_elsewhere.
  - unfold m1. rewrite init_free_memory_fill by lia; cbn [fst].
    rewrite memset_outside by lia. apply Hclear; lia.
  - intros k Hk E. assert (j <= k * j <= n * j) by nia. lia.
Qed.

(** From the [t]-th corrupted byte, with [t] blocks counted so far. *)
Lemma corrupted_scan_from (d : nat) :
  forall t, 1 <= t <= n -> n - t = Z.of_nat d ->
            scans_to m2 ptr N (8 + t * j) t (n + 1).
Proof.
  pose proof corrupted_stride as [_ Hs].
  induction d as [|d IH]; intros t Ht Hd;
    assert (Htj : j <= t * j <= n * j) by nia;
    (apply scans_to_nontest;
     [lia | rewrite Z.add_assoc; apply corrupted_written; lia |]).
  - assert (t = n) as -> by lia.
    apply (scans_to_block _ ptr N _ n (n + 1) (S - 250 - n * j - 1)); try lia.
    + split.
      * intros k Hk.
        replace (ptr + (8 + n * j + 1) + k) with (ptr + 8 + (n * j + 1 + k)) by lia.
        apply corrupted_filled; [lia|].
        intros k' Hk' E. assert (k' * j <= n * j) by nia. lia.
      * replace (ptr + (8 + n * j + 1) + (S - 250 - n * j - 1))
          with (ptr + (S - 242)) by lia.
        apply corrupted_margins; lia.
    + apply scans_to_tail; [lia | intros; apply corrupted_margins; lia].
  - assert (Htj' : (t + 1) * j = t * j + j) by lia.
    assert (Hnext : t * j + j <= n * j) by nia.
    apply (scans_to_block _ ptr N _ t (n + 1) (j - 1)); try lia.
    + split.
      * intros k Hk.
        replace (ptr + (8 + t * j + 1) + k) with (ptr + 8 + (t * j + 1 + k)) by lia.
        apply corrupted_filled; [lia|].
        intros k' Hk'. apply between_multiples with (t := t); lia.
      * replace (ptr + (8 + t * j + 1) + (j - 1)) with (ptr + 8 + (t + 1) * j) by lia.
        apply corrupted_written; lia.
    + replace (8 + t * j + 1 + (j - 1)) with (8 + (t + 1) * j) by lia.
      apply IH; lia.
Qed.

Lemma corrupted_scans_to : scans_to m2 ptr N 0 0 (n + 1).
Proof.
  pose proof corrupted_stride as [_ Hs].
  assert (Hnj : j <= n * j) by nia.
  apply (scans_to_gap _ ptr N _ _ 8 0); [lia | intros; apply corrupted_margins; lia |].
  apply (scans_to_block _ ptr N _ 0 (n + 1) j); try lia.
  - split.
    + intros k Hk.
      replace (ptr + (0 + Z.of_nat 8) + k) with (ptr + 8 + k) by lia.
      apply corrupted_filled; [lia|].
      intros k' Hk' E. assert (j <= k' * j) by nia. lia.
    + replace (ptr + (0 + Z.of_nat 8) + j) with (ptr + 8 + 1 * j) by lia.
      apply corrupted_written; lia.
  - replace (0 + Z.of_nat 8 + j) with (8 + 1 * j) by lia.
    apply (corrupted_scan_from (Z.to_nat (n - 1))); lia.
Qed.

End Corrupted.

(** With a stride of 11 or more.  On a pool that [init_free_memory] has
    just filled (margins free of test bytes), [corrupt_free_memory] with a
    count [n] whose written values all differ from the test byte
    (1 <= n <= 228) and whose stride is at least 11, so that the runs
    between the writes have ten bytes or more, makes the check count
    [n + 1] blocks and return that count, which is not zero. *)
Lemma corrupt_then_check_counts (m : memory) (brk ptr S tos n sp_check : Z) :
  260 <= S <= 32249 -> margins_clear m ptr S ->
  1 <= n <= 228 -> tos <= ptr + S ->
  11 <= (tos - (ptr + 8) - 250) / (n + 1) ->
  ptr + S - 242 <= sp_check <= ptr + S ->
  exists m2 touched rep,
    corrupt_free_memory true tos (fst (init_free_memory m ptr S)) ptr n
      = Some (m2, touched) /\
    check_for_free_memory_corruption m2 brk ptr sp_check = Done rep /\
    block_found rep = n + 1 /\ ret rep = n + 1 /\ ret rep <> 0.
Proof.
  intros HS Hclear Hn Htos Hj Hsp.
  assert (HN : S - 242 <= sp_check - ptr <= S) by lia.
  pose proof (corrupted_scans_to m ptr S tos n (sp_check - ptr)
                                 HS Hclear Hn Htos Hj HN) as Hscan.
  cbv zeta in Hscan.
  set (m1 := fst (init_free_memory m ptr S)) in *.
  set (j := (tos - (ptr + 8) - 250) / (n + 1)) in *.
  unfold corrupt_free_memory.
  rewrite (u16_small (tos - (ptr + 8) - 250)) by lia.
  rewrite (u16_small (n + 1)) by lia.
  cmp_false (n + 1 =? 0). fold j.
  destruct (corrupt_loop (Z.to_nat n + 1) m1 (ptr + 8) n j 1 [])
    as [m2 touched] eqn:E.
  cbn [fst] in Hscan.
  destruct (check_of_scan m2 brk ptr sp_check (n + 1)) as (rep & Ec & Hb & Hr & _).
  { now rewrite s16_small by lia. }
  exists m2, touched, rep.
  assert (Hc : classify (n + 1) = n + 1).
  { unfold classify. cmp_false (n + 1 =? 0). now cmp_false (n + 1 =? 1). }
  rewrite Hc in Hr. repeat split; trivial; lia.
Qed.

Lemma corrupt_then_check_counts_witness :
  exists m2 touched rep,
    corrupt_free_memory true 3000
      (fst (init_free_memory zero_memory 1000 2000)) 1000 3
      = Some (m2, touched) /\
    check_for_free_memory_corruption m2 0 1000 3000 = Done rep /\
    block_found rep = 3 + 1 /\ ret rep = 3 + 1 /\ ret rep <> 0.
Proof.
  apply (corrupt_then_check_counts zero_memory 0 1000 2000 3000 3 3000).
  - lia.
  - apply zero_memory_margins_clear.
  - lia.
  - lia.
  - vm_compute; discriminate.
  - lia.
Defined.

(** C6 (divergence).  On an initialized region of 300 bytes (heap end
    1000, stack top 1300), [corrupt_free_memory] with count 3 has stride 10
    and writes the values 1, 2, 3 at 1018, 1028 and 1038.  The writes leave
    four runs of test bytes, of 10, 9, 9 and 19 bytes, each above the
    8-byte threshold; yet the check counts 2 blocks and returns 2, not
    3 + 1: [count_test_bytes] returns 8 for the nine-byte runs. *)
Theorem corrupt_stride_ten :
  exists m2 touched rep,
    corrupt_free_memory true 1300
      (fst (init_free_memory zero_memory 1000 300)) 1000 3
      = Some (m2, touched) /\
    touched = [1018; 1028; 1038] /\
    spec_run_lengths (scanned_bytes m2 1000 300) 0 = [10; 9; 9; 19] /\
    spec_block_count m2 1000 300 = 3 + 1 /\
    check_for_free_memory_corruption m2 0 1000 1300 = Done rep /\
    block_found rep = 2 /\ ret rep = 2.
Proof.
  eexists; eexists; eexists.
  split; [reflexivity|]. split; [reflexivity|].
  split; [vm_compute; reflexivity|]. split; [vm_compute; reflexivity|].
  split; [vm_compute; reflexivity | split; reflexivity].
Qed.

(** ** C3: what count_test_bytes returns *)

(** C3 (divergence).  At a run of three test bytes followed by a zero byte,
    [count_test_bytes] returns 2, not the run length 3; at a byte that is
    not a test byte (a run of length 0) it returns -1. *)
Theorem count_test_bytes_one_less :
  let m := memset zero_memory 100 TEST_BYTE 3 in
  run_at m 100 3 /\ count_test_bytes m 100 = 2 /\
  run_at m 200 0 /\ count_test_bytes m 200 = -1.
Proof.
  intros m; repeat split.
  - intros k Hk. unfold m. now rewrite memset_inside by lia.
  - intros k Hk. lia.
Qed.

(** ** C2: the classification of the check *)

Lemma check_ret_classify (m : memory) (brk ptr sp : Z) (rep : check_report) :
  check_for_free_memory_corruption m brk ptr sp = Done rep ->
  ret rep = classify (block_found rep).
Proof.
  unfold check_for_free_memory_corruption.
  destruct (check_scan _ m ptr _ 0 0 []) as [[c ps]| |]; try discriminate.
  intros [= <-]. cbn [ret block_found]. unfold classify.
  destruct (Z.eqb_spec c 0) as [->|]; reflexivity.
Qed.

(** C2 (divergence).  A 100-byte region whose only test bytes are one run
    of nine holds exactly one run longer than the 8-byte threshold, yet the
    check counts no block and returns -1. *)
Theorem check_misses_nine_byte_run :
  let m := memset zero_memory 1010 TEST_BYTE 9 in
  spec_block_count m 1000 100 = 1 /\
  run_at m 1010 9 /\
  exists rep,
    check_for_free_memory_corruption m 0 1000 1100 = Done rep /\
    block_found rep = 0 /\ ret rep = -1.
Proof.
  intros m; repeat split.
  - intros k Hk. unfold m. now rewrite memset_inside by lia.
  - eexists; split; [vm_compute; reflexivity | split; reflexivity].
Qed.

(** One byte more, and the run is counted. *)
Lemma check_counts_ten_byte_run :
  let m := memset zero_memory 1010 TEST_BYTE 10 in
  spec_block_count m 1000 100 = 1 /\
  exists rep,
    check_for_free_memory_corruption m 0 1000 1100 = Done rep /\
    block_found rep = 1 /\ ret rep = 0.
Proof.
  intros m; split; [reflexivity|].
  eexists; split; [vm_compute; reflexivity | split; reflexivity].
Qed.

(** ** C4: regions too small to initialize *)

(** C4 (as the code has it).  When the size is below 250,
    [init_free_memory] reports that it is unable to initialize and hands
    back the memory it was given. *)
Theorem init_free_memory_too_small (m : memory) (ptr S : Z) :
  -32518 <= S < 250 -> init_free_memory m ptr S = (m, Unable).
Proof.
  intros HS; unfold init_free_memory.
  rewrite s16_small by lia. now cmp_true (S - 250 <? 0).
Qed.

Lemma init_free_memory_too_small_witness :
  init_free_memory zero_memory 1000 249 = (zero_memory, Unable).
Proof.
  apply (init_free_memory_too_small zero_memory 1000 249); lia.
Defined.

(** C4 (as stated) fails: a region of 258 = 8 + 250 bytes is initialized,
    and its bytes 8 to 15 are overwritten with the test byte. *)
Lemma init_free_memory_258_counterexample :
  ~ (snd (init_free_memory zero_memory 1000 258) = Unable /\
     forall a, fst (init_free_memory zero_memory 1000 258) a = zero_memory a).
Proof.
  intros [H _]. vm_compute in H. discriminate H.
Qed.

Lemma init_free_memory_258_writes :
  snd (init_free_memory zero_memory 1000 258) = Initialized 8 [] /\
  fst (init_free_memory zero_memory 1000 258) 1008 = 0xE5 /\
  fst (init_free_memory zero_memory 1000 258) 1015 = 0xE5.
Proof. repeat split. Qed.

(** ** C5: stack below the heap *)

(** C5.  When the stack top is below the heap end (and their distance fits
    the 16-bit pointer difference), the check reports the collision, asks
    for the dump of 0x1B80-0x21FF, and its scan loop reads no byte: it
    counts no block and returns -1, whatever the memory holds. *)
Theorem check_collision_skips_scan (m : memory) (brk ptr sp : Z) :
  sp < ptr -> ptr - sp <= 32768 ->
  exists rep,
    check_for_free_memory_corruption m brk ptr sp = Done rep /\
    collision rep = true /\
    dump_request rep = Some (0x1B80, 0x21FF) /\
    probed rep = [] /\
    block_found rep = 0 /\ ret rep = -1.
Proof.
  intros Hlt Hfit; unfold check_for_free_memory_corruption.
  rewrite s16_small by lia.
  replace (Z.to_nat (sp - ptr)) with 0%nat by lia.
  cbn [Nat.add check_scan].
  cmp_false (0 <? sp - ptr). cmp_true (sp <? ptr).
  eexists; split; [reflexivity|]. repeat split.
Qed.

Lemma check_collision_skips_scan_witness :
  exists rep,
    check_for_free_memory_corruption zero_memory 0 0x2000 0x1F00 = Done rep /\
    collision rep = true /\
    dump_request rep = Some (0x1B80, 0x21FF) /\
    probed rep = [] /\
    block_found rep = 0 /\ ret rep = -1.
Proof.
  apply (check_collision_skips_scan zero_memory 0 0x2000 0x1F00); lia.
Defined.

(** ** C7: the rows of a dump *)

Lemma low_nibble (x : Z) : Z.land x 0xF = x mod 16.
Proof. change 0xF with (Z.ones 4). now rewrite Z.land_ones by lia. Qed.

Lemma align_down_eq (x : Z) :
  0 <= x < 65536 -> align_down x = 16 * (x / 16).
Proof.
  intros Hx; unfold align_down; rewrite u16_small by trivial.
  assert (D : Z.land (Z.land x 0xFFF0) (Z.land x 0xF) = 0).
  { rewrite <- Z.land_assoc, (Z.land_comm x 0xF), (Z.land_assoc 0xFFF0 0xF x).
    change (Z.land 0xFFF0 0xF) with 0. now rewrite Z.land_0_l, Z.land_0_r. }
  assert (J : Z.lor (Z.land x 0xFFF0) (Z.land x 0xF) = x).
  { rewrite <- Z.land_lor_distr_r. change (Z.lor 0xFFF0 0xF) with (Z.ones 16).
    rewrite Z.land_ones by lia. change (2 ^ 16) with 65536. lia. }
  pose proof (Z.add_lor_land (Z.land x 0xFFF0) (Z.land x 0xF)) as H.
  rewrite D, J, low_nibble in H. lia.
Qed.

Lemma align_up_eq (x : Z) :
  0 <= x < 65536 -> align_up x = 16 * (x / 16) + 15.
Proof.
  intros Hx; unfold align_up; rewrite u16_small by trivial.
  pose proof (Z.add_lor_land x 0xF) as H.
  rewrite low_nibble in H. lia.
Qed.

Lemma dump_loop_rows (q : cmd_buffer) (m : memory) (sp : Z) (k : nat) :
  forall (a : Z) (fuel : nat),
    sp = a + 16 * Z.of_nat k - 1 -> (k < fuel)%nat ->
    dump_loop fuel q m a sp = Done (rows_from q m a k).
Proof.
  induction k as [|k IH]; intros a [|fuel] Hsp Hfuel; try lia;
    cbn [dump_loop rows_from].
  - now cmp_false (a <? sp).
  - cmp_true (a <? sp). rewrite IH; trivial; lia.
Qed.

Lemma rows_from_length (q : cmd_buffer) (m : memory) (k : nat) :
  forall a, length (rows_from q m a k) = k.
Proof. induction k as [|k IH]; intros a; cbn; auto. Qed.

Lemma rows_from_nth (q : cmd_buffer) (m : memory) (k : nat) :
  forall (a : Z) (i : nat) (r : dump_row),
    nth_error (rows_from q m a k) i = Some r <->
    (i < k)%nat /\ r = dump_row_at q m (a + 16 * Z.of_nat i).
Proof.
  induction k as [|k IH]; intros a i r; cbn [rows_from].
  - destruct i; cbn; split; try discriminate; intros [H _]; lia.
  - destruct i as [|i]; cbn [nth_error].
    + replace (a + 16 * Z.of_nat 0) with a by lia.
      split; [intros [= <-]; split; [lia | trivial] | intros [_ ->]; trivial].
    + rewrite IH.
      replace (a + 16 + 16 * Z.of_nat i) with (a + 16 * Z.of_nat (S i)) by lia.
      split; intros [H ->]; split; trivial; lia.
Qed.

(** C7.  For addresses [start <= end_] (16-bit, [end_] below the last row
    0xFFF0 of the address space, so that the row pointer stays an address),
    the dump ends and prints ceil((alignedEnd - alignedStart) / 16) rows,
    where alignedStart is [start] rounded down to a multiple of 16 and
    alignedEnd is [end_] rounded up to the last byte of its row; row number
    [i] starts at alignedStart + 16 i; and each address of [start, end_] is
    shown by exactly one row. *)
Theorem dump_rows_cover_range (q : cmd_buffer) (m : memory) (start end_ : Z) :
  0 <= start <= end_ -> end_ < 0xFFF0 ->
  let a0 := align_down start in
  let a1 := align_up end_ in
  a0 = 16 * (start / 16) /\ a1 = 16 * (end_ / 16) + 15 /\
  exists rows,
    dump_free_memory q m start end_ = Done rows /\
    Z.of_nat (length rows) = ceil_div (a1 - a0) 16 /\
    (forall i r, nth_error rows i = Some r ->
                 row_addr r = a0 + 16 * Z.of_nat i) /\
    (forall a, start <= a <= end_ ->
       exists i r,
         nth_error rows i = Some r /\ covers r a /\
         forall i' r', nth_error rows i' = Some r' -> covers r' a -> i' = i).
Proof.
  intros Hse He a0 a1.
  assert (E0 : a0 = 16 * (start / 16)) by (apply align_down_eq; lia).
  assert (E1 : a1 = 16 * (end_ / 16) + 15) by (apply align_up_eq; lia).
  split; [trivial|]; split; [trivial|].
  set (k := Z.to_nat (end_ / 16 - start / 16 + 1)).
  assert (Hk : Z.of_nat k = end_ / 16 - start / 16 + 1) by lia.
  assert (Hrow : forall i, (i < k)%nat ->
            row_addr (dump_row_at q m (a0 + 16 * Z.of_nat i))
            = a0 + 16 * Z.of_nat i).
  { intros i Hi. cbn [dump_row_at row_addr]. apply u16_small; lia. }
  exists (rows_from q m a0 k). repeat split.
  - unfold dump_free_memory. fold a0 a1.
    apply dump_loop_rows; lia.
  - rewrite rows_from_length. unfold ceil_div. lia.
  - intros i r Hnth. apply rows_from_nth in Hnth as [Hi ->]. now apply Hrow.
  - intros a Ha.
    exists (Z.to_nat (a / 16 - start / 16)), 
           (dump_row_at q m (a0 + 16 * Z.of_nat (Z.to_nat (a / 16 - start / 16)))).
    assert (Hi : (Z.to_nat (a / 16 - start / 16) < k)%nat) by lia.
    split; [apply rows_from_nth; split; trivial|].
    split.
    + unfold covers. rewrite Hrow by trivial. lia.
    + intros i' r' Hnth Hcov. apply rows_from_nth in Hnth as [Hi' ->].
      unfold covers in Hcov. rewrite Hrow in Hcov by trivial. lia.
Qed.

Lemma dump_rows_cover_range_witness :
  let q := {| command_queue := 0x400; BUFSIZE := 4; MAX_CMD_SIZE := 96 |} in
  let a0 := align_down 0x1B85 in
  let a1 := align_up 0x1BA0 in
  a0 = 16 * (0x1B85 / 16) /\ a1 = 16 * (0x1BA0 / 16) + 15 /\
  exists rows,
    dump_free_memory q zero_memory 0x1B85 0x1BA0 = Done rows /\
    Z.of_nat (length rows) = ceil_div (a1 - a0) 16 /\
    (forall i r, nth_error rows i = Some r ->
                 row_addr r = a0 + 16 * Z.of_nat i) /\
    (forall a, 0x1B85 <= a <= 0x1BA0 ->
       exists i r,
         nth_error rows i = Some r /\ covers r a /\
         forall i' r', nth_error rows i' = Some r' -> covers r' a -> i' = i).
Proof.
  intros q.
  apply (dump_rows_cover_range q zero_memory 0x1B85 0x1BA0); lia.
Defined.

(** ** C8: the flag column of a dump row *)

(** What line 122-127 print, by the test that the code makes. *)
Lemma flag_char_cases (q : cmd_buffer) (m : memory) (a : Z) :
  (in_command_buffer_area q a = true ->
     flag_char q m a =
       if WITHIN (char_of (m a)) blank 0x7E then char_of (m a) else blank) /\
  (in_command_buffer_area q a = false -> is_test_byte (m a) = true ->
     flag_char q m a = blank) /\
  (in_command_buffer_area q a = false -> is_test_byte (m a) = false ->
     flag_char q m a = anomaly).
Proof.
  unfold flag_char, is_test_byte. repeat split.
  - intros ->. now destruct (WITHIN _ _ _).
  - intros -> ->. reflexivity.
  - intros -> ->. reflexivity.
Qed.

(** Inside the array the bytes are printed as text. *)
Lemma flag_char_in_command_queue (q : cmd_buffer) (m : memory) (a : Z) :
  0 <= MAX_CMD_SIZE q -> in_command_queue q a = true ->
  flag_char q m a =
    if WITHIN (char_of (m a)) blank 0x7E then char_of (m a) else blank.
Proof.
  intros Hsz Hin. apply flag_char_cases.
  unfold in_command_queue in Hin; unfold in_command_buffer_area.
  apply andb_true_iff in Hin as [H1 H2]. rewrite H1; cbn [andb].
  apply Z.ltb_lt in H2. apply Z.ltb_lt. lia.
Qed.

(** The flag column of a row is [flag_char] at its 16 addresses. *)
Lemma row_flags_nth (q : cmd_buffer) (m : memory) (ptr : Z) (i : nat) :
  (i < 16)%nat ->
  nth_error (row_flags (dump_row_at q m ptr)) i
  = Some (flag_char q m (ptr + Z.of_nat i)).
Proof.
  intros Hi. cbn [dump_row_at row_flags].
  do 16 (destruct i as [|i]; [reflexivity|]). lia.
Qed.

(** C8 (divergence).  With a command queue of 4 lines of 96 bytes at
    0x400, the byte at 0x580 is the first one past the array; holding 'A'
    (0x41), which is not the test byte, it is printed as 'A' and not as
    the anomaly mark '?': the test of line 122 reaches [MAX_CMD_SIZE]
    bytes past the end of [command_queue]. *)
Theorem flag_char_past_command_queue :
  let q := {| command_queue := 0x400; BUFSIZE := 4; MAX_CMD_SIZE := 96 |} in
  let m := store zero_memory 0x580 0x41 in
  in_command_queue q 0x580 = false /\
  is_test_byte (m 0x580) = false /\
  flag_char q m 0x580 = 0x41 /\
  flag_char q m 0x580 <> anomaly /\
  nth_error (row_flags (dump_row_at q m 0x580)) 0 = Some 0x41.
Proof. repeat split; discriminate. Qed.

(** ** C9: the first-call flag *)






(** ** C10: the divisor of the stride *)

(** C10.  For a count [c] of 16 bits, the divisor [c + 1] of line 193,
    taken in 16-bit unsigned arithmetic, is zero exactly when [c] is 65535;
    so for every [c < 65535] the division is defined and
    [corrupt_free_memory] has a result, and for [c = 65535] it has none. *)
Theorem corrupt_divisor_nonzero (c : Z) :
  0 <= c <= 65535 ->
  (u16 (c + 1) = 0 <-> c = 65535) /\
  (c < 65535 -> u16 (c + 1) <> 0) /\
  forall (tos : Z) (m : memory) (ptr : Z),
    (c < 65535 -> corrupt_free_memory true tos m ptr c <> None) /\
    (c = 65535 -> corrupt_free_memory true tos m ptr c = None).
Proof.
  intros Hc.
  assert (Hd : u16 (c + 1) = 0 <-> c = 65535) by (unfold u16; lia).
  split; [trivial|]. split; [intros Hlt; rewrite Hd; lia|].
  intros tos m ptr; unfold corrupt_free_memory; split.
  - intros Hlt. cmp_false (u16 (c + 1) =? 0). discriminate.
  - intros ->. reflexivity.
Qed.

Lemma corrupt_divisor_nonzero_witness :
  (u16 (3 + 1) = 0 <-> 3 = 65535) /\
  (3 < 65535 -> u16 (3 + 1) <> 0) /\
  forall (tos : Z) (m : memory) (ptr : Z),
    (3 < 65535 -> corrupt_free_memory true tos m ptr 3 <> None) /\
    (3 = 65535 -> corrupt_free_memory true tos m ptr 3 = None).
Proof.
  apply (corrupt_divisor_nonzero 3); lia.
Defined.

(** The count 65535 is what [M100 C-1] hands over: the [int] -1 becomes the
    [uint16_t] 65535. *)
Lemma gcode_M100_C_minus_one (fuel : nat) (q : cmd_buffer) (l : layout)
      (st : M100_state) :
  action (snd (gcode_M100 fuel q l
                 {| seen_I := false; seen_D := false; seen_F := false;
                    seen_C := true; value_int := -1 |} st))
  = DividedByZero.
Proof.
  unfold gcode_M100. cbn [seen_I seen_D seen_F seen_C value_int].
  destruct (init_free_memory _ _ _) as [m' r].
  destruct (m100_not_initialized st); reflexivity.
Qed.

(** * Further properties of the watcher *)

(** ** count_test_bytes: result range, cap and general value *)

Lemma count_test_bytes_loop_range (m : memory) (p : Z) (fuel : nat) :
  forall i, 0 <= i -> -1 <= count_test_bytes_loop fuel m p i <= 31998.
Proof.
  induction fuel as [|fuel IH]; intros i Hi; cbn [count_test_bytes_loop]; [lia|].
  destruct (Z.ltb_spec i 32000); [|lia].
  destruct (is_test_byte (m (p + i))); cbn [negb].
  - apply IH. unfold u16; lia.
  - unfold s16, u16; lia.
Qed.

Lemma count_test_bytes_loop_cap (m : memory) (p : Z) (fuel : nat) :
  (forall k, 0 <= k < 32000 -> is_test_byte (m (p + k)) = true) ->
  forall i, 0 <= i -> count_test_bytes_loop fuel m p i = -1.
Proof.
  intros Hall.
  induction fuel as [|fuel IH]; intros i Hi; cbn [count_test_bytes_loop]; trivial.
  destruct (Z.ltb_spec i 32000); trivial.
  rewrite Hall by lia; cbn [negb]. apply IH. unfold u16; lia.
Qed.

Lemma count_test_bytes_loop_below (m : memory) (p d : Z) (fuel : nat) :
  is_test_byte (m (p + d)) = false ->
  forall i, 0 <= i <= d -> count_test_bytes_loop fuel m p i <= d - 1.
Proof.
  intros Hd.
  induction fuel as [|fuel IH]; intros i Hi; cbn [count_test_bytes_loop]; [lia|].
  destruct (Z.ltb_spec i 32000); [|lia].
  destruct (is_test_byte (m (p + i))) eqn:Eb; cbn [negb].
  - assert (i <> d) by (intros ->; congruence).
    rewrite u16_small by lia. apply IH; lia.
  - unfold s16, u16; lia.
Qed.

(** A non-test byte [d] bytes ahead bounds the result. *)
Lemma count_test_bytes_below (m : memory) (p d : Z) :
  0 <= d -> is_test_byte (m (p + d)) = false ->
  count_test_bytes m p <= d - 1.
Proof.
  intros Hd Hb. apply count_test_bytes_loop_below with (d := d); trivial; lia.
Qed.

(** X1.  On a run of [L] test bytes, [0 <= L < 32000], that a different
    byte ends, [count_test_bytes] returns [L - 1]. *)
Theorem count_test_bytes_run_length (m : memory) (p L : Z) :
  run_at m p L -> 0 <= L < 32000 -> count_test_bytes m p = L - 1.
Proof. apply count_test_bytes_run. Qed.

Lemma run_at_memset (p n : Z) :
  0 <= n -> run_at (memset zero_memory p TEST_BYTE n) p n.
Proof.
  intros Hn; split.
  - intros k Hk. now rewrite memset_inside by lia.
  - now rewrite memset_outside by lia.
Qed.

Lemma count_test_bytes_run_length_witness :
  count_test_bytes (memset zero_memory 100 TEST_BYTE 3) 100 = 3 - 1.
Proof.
  apply (count_test_bytes_run_length _ 100 3); [apply run_at_memset|]; lia.
Defined.

(** X2.  When the 32000 bytes from [p] on are all test bytes, the loop
    reaches its cap and [count_test_bytes] returns -1. *)
Theorem count_test_bytes_cap (m : memory) (p : Z) :
  (forall k, 0 <= k < 32000 -> is_test_byte (m (p + k)) = true) ->
  count_test_bytes m p = -1.
Proof.
  intros Hall. apply count_test_bytes_loop_cap; trivial; lia.
Qed.

Lemma count_test_bytes_cap_witness :
  count_test_bytes (memset zero_memory 100 TEST_BYTE 32000) 100 = -1.
Proof.
  apply (count_test_bytes_cap _ 100).
  intros k Hk. now rewrite memset_inside by lia.
Defined.

(** X3.  Whatever the memory holds, the result of [count_test_bytes] lies
    between -1 and 31998. *)
Theorem count_test_bytes_range (m : memory) (p : Z) :
  -1 <= count_test_bytes m p <= 31998.
Proof. apply count_test_bytes_loop_range; lia. Qed.

(** ** The check: termination, bounds of its result, what it reads *)

Lemma check_scan_invariant (m : memory) (ptr n : Z) (fuel : nat) :
  forall (i c : Z) (ps : list Z),
    0 <= i -> Z.max 0 (n - i) < Z.of_nat fuel ->
    match check_scan fuel m ptr n i c ps with
    | Done (c', ps') =>
        c <= c' /\ 10 * (c' - c) <= Z.max 0 (n - i) + 9 /\
        forall a, In a ps' -> In a ps \/ ptr + i <= a < ptr + n
    | Overflow => True
    | OutOfFuel => False
    end.
Proof.
  induction fuel as [|fuel IH]; intros i c ps Hi Hfuel; [lia|].
  cbn [check_scan].
  destruct (Z.ltb_spec i n) as [Hlt|Hge].
  - assert (Hstep : match check_scan fuel m ptr n (i + 1) c (ps ++ [ptr + i]) with
                    | Done (c', ps') =>
                        c <= c' /\ 10 * (c' - c) <= Z.max 0 (n - i) + 9 /\
                        forall a, In a ps' -> In a ps \/ ptr + i <= a < ptr + n
                    | Overflow => True
                    | OutOfFuel => False
                    end).
    { specialize (IH (i + 1) c (ps ++ [ptr + i]) ltac:(lia) ltac:(lia)).
      destruct (check_scan fuel m ptr n (i + 1) c (ps ++ [ptr + i]))
        as [[c' ps']| |]; trivial.
      destruct IH as (H1 & H2 & H3). repeat split; try lia.
      intros a Ha. destruct (H3 a Ha) as [Hin|Hr]; [|lia].
      apply in_app_or in Hin as [Hin|[<-|[]]]; [now left | lia]. }
    destruct (is_test_byte (m (ptr + i))); trivial.
    destruct (Z.gtb_spec (count_test_bytes m (ptr + i)) 8) as [Hj|Hj]; trivial.
    destruct (Z.gtb_spec (i + count_test_bytes m (ptr + i) + 1) 32767); trivial.
    set (j := count_test_bytes m (ptr + i)) in *.
    specialize (IH (i + j + 1) (c + 1) (ps ++ [ptr + i]) ltac:(lia) ltac:(lia)).
    destruct (check_scan fuel m ptr n (i + j + 1) (c + 1) (ps ++ [ptr + i]))
      as [[c' ps']| |]; trivial.
    destruct IH as (H1 & H2 & H3). repeat split; try lia.
    intros a Ha. destruct (H3 a Ha) as [Hin|Hr]; [|lia].
    apply in_app_or in Hin as [Hin|[<-|[]]]; [now left | lia].
  - repeat split; try lia. intros a Ha; now left.
Qed.

Lemma check_scan_no_overflow (m : memory) (ptr n : Z) (fuel : nat) :
  (forall i, 0 <= i < n -> i + count_test_bytes m (ptr + i) + 1 <= 32767) ->
  forall (i c : Z) (ps : list Z),
    0 <= i -> check_scan fuel m ptr n i c ps <> Overflow.
Proof.
  intros Hfit.
  induction fuel as [|fuel IH]; intros i c ps Hi; cbn [check_scan]; [discriminate|].
  destruct (Z.ltb_spec i n) as [Hlt|Hge]; [|discriminate].
  pose proof (count_test_bytes_loop_range m (ptr + i) (Z.to_nat 32001) 0
                ltac:(lia)) as Hr.
  fold (count_test_bytes m (ptr + i)) in Hr.
  destruct (is_test_byte (m (ptr + i))); [|apply IH; lia].
  destruct (Z.gtb_spec (count_test_bytes m (ptr + i)) 8); [|apply IH; lia].
  specialize (Hfit i ltac:(lia)).
  destruct (Z.gtb_spec (i + count_test_bytes m (ptr + i) + 1) 32767); [lia|].
  apply IH; lia.
Qed.

(** X4.  When the byte at the stack top is not a test byte, the check
    returns a report for every region [ptr <= sp] of up to 32767 bytes,
    whatever else the memory holds: the scan ends and its index stays in
    range. *)
Theorem check_returns (m : memory) (brk ptr sp : Z) :
  0 <= sp - ptr <= 32767 -> is_test_byte (m sp) = false ->
  exists rep, check_for_free_memory_corruption m brk ptr sp = Done rep.
Proof.
  intros Hn Hsp. unfold check_for_free_memory_corruption.
  rewrite s16_small by lia. set (n := sp - ptr) in *.
  pose proof (check_scan_invariant m ptr n (Z.to_nat n + 1) 0 0 []
                ltac:(lia) ltac:(lia)) as Hinv.
  assert (Hno : check_scan (Z.to_nat n + 1) m ptr n 0 0 [] <> Overflow).
  { apply check_scan_no_overflow; [|lia].
    intros i Hi.
    assert (count_test_bytes m (ptr + i) <= (n - i) - 1); [|lia].
    apply count_test_bytes_below; [lia|].
    now replace (ptr + i + (n - i)) with sp by (unfold n; lia). }
  destruct (check_scan (Z.to_nat n + 1) m ptr n 0 0 []) as [[c ps]| |];
    [eexists; reflexivity | congruence | contradiction].
Qed.

Lemma check_returns_witness :
  exists rep, check_for_free_memory_corruption zero_memory 0 1000 1100 = Done rep.
Proof.
  apply (check_returns zero_memory 0 1000 1100); [lia | reflexivity].
Defined.

(** X5.  The check never runs out of its iteration budget, and whenever it
    returns: the block count is not negative, ten times the count is at
    most the region size plus 9, the value returned is never 1, it is 0
    exactly when one block was counted and -1 exactly when none was. *)
Theorem check_result_bounds (m : memory) (brk ptr sp : Z) :
  match check_for_free_memory_corruption m brk ptr sp with
  | Done rep =>
      0 <= block_found rep /\
      10 * block_found rep <= Z.max 0 (s16 (sp - ptr)) + 9 /\
      ret rep <> 1 /\
      (ret rep = 0 <-> block_found rep = 1) /\
      (ret rep = -1 <-> block_found rep = 0)
  | Overflow => True
  | OutOfFuel => False
  end.
Proof.
  unfold check_for_free_memory_corruption.
  set (n := s16 (sp - ptr)).
  pose proof (check_scan_invariant m ptr n (Z.to_nat n + 1) 0 0 []
                ltac:(lia) ltac:(lia)) as Hinv.
  destruct (check_scan (Z.to_nat n + 1) m ptr n 0 0 []) as [[c ps]| |]; trivial.
  destruct Hinv as (H1 & H2 & _). cbn [block_found ret].
  destruct (Z.eqb_spec c 0) as [->|H0]; [cbn; lia|].
  destruct (Z.eqb_spec c 1) as [->|H1']; lia.
Qed.


(** X7.  On an empty region ([sp = ptr]) and on a region of 32768 bytes or
    more, whose size does not fit the 16-bit [int], the check reads no
    byte, reports no collision and returns -1. *)
Theorem check_empty_or_oversized (m : memory) (brk ptr sp : Z) :
  sp = ptr \/ 32768 <= sp - ptr < 65536 ->
  exists rep,
    check_for_free_memory_corruption m brk ptr sp = Done rep /\
    collision rep = false /\ probed rep = [] /\
    block_found rep = 0 /\ ret rep = -1.
Proof.
  intros Hsz. unfold check_for_free_memory_corruption.
  assert (Hn : s16 (sp - ptr) <= 0) by (unfold s16; lia).
  replace (Z.to_nat (s16 (sp - ptr))) with 0%nat by lia.
  cbn [Nat.add check_scan].
  cmp_false (0 <? s16 (sp - ptr)). cmp_false (sp <? ptr).
  eexists; split; [reflexivity|]. repeat split.
Qed.

Lemma check_empty_or_oversized_witness :
  exists rep,
    check_for_free_memory_corruption zero_memory 0 1000 1000 = Done rep /\
    collision rep = false /\ probed rep = [] /\
    block_found rep = 0 /\ ret rep = -1.
Proof.
  apply (check_empty_or_oversized zero_memory 0 1000 1000). now left.
Defined.

(** ** init_free_memory: what is written, what is kept, repetition *)

Lemma filter_none {A : Type} (f : A -> bool) (l : list A) :
  (forall a, In a l -> f a = false) -> filter f l = [].
Proof.
  induction l as [|x l IH]; intros H; cbn [filter]; trivial.
  rewrite (H x) by now left. apply IH. intros a Ha; apply H; now right.
Qed.

Lemma read_back_memset (m : memory) (p n : Z) :
  read_back (memset m p TEST_BYTE n) p n = [].
Proof.
  unfold read_back. apply filter_none. intros a Ha.
  apply in_map_iff in Ha as (i & <- & Hi). apply in_seq in Hi.
  rewrite memset_inside by lia. reflexivity.
Qed.

(** X8.  For a size [S] from 250 to 32767, [init_free_memory] reports
    [S - 250] bytes initialized and no read-back anomaly; the [S - 250]
    bytes from [ptr + 8] on hold the test byte afterwards, and every other
    byte of memory is as before: the last 242 bytes below [ptr + S], not
    250, are left alone. *)
Theorem init_free_memory_effect (m : memory) (ptr S : Z) :
  250 <= S <= 32767 ->
  snd (init_free_memory m ptr S) = Initialized (S - 250) [] /\
  (forall a, ptr + 8 <= a < ptr + S - 242 ->
             fst (init_free_memory m ptr S) a = 0xE5) /\
  (forall a, a < ptr + 8 \/ ptr + S - 242 <= a ->
             fst (init_free_memory m ptr S) a = m a).
Proof.
  intros HS. rewrite init_free_memory_fill by trivial. cbn [fst snd].
  rewrite read_back_memset. repeat split.
  - intros a Ha. now rewrite memset_inside by lia.
  - intros a Ha. now rewrite memset_outside by lia.
Qed.

Lemma init_free_memory_effect_witness :
  snd (init_free_memory zero_memory 1000 2000) = Initialized (2000 - 250) [] /\
  (forall a, 1000 + 8 <= a < 1000 + 2000 - 242 ->
             fst (init_free_memory zero_memory 1000 2000) a = 0xE5) /\
  (forall a, a < 1000 + 8 \/ 1000 + 2000 - 242 <= a ->
             fst (init_free_memory zero_memory 1000 2000) a = zero_memory a).
Proof.
  apply (init_free_memory_effect zero_memory 1000 2000). lia.
Defined.

(** X9.  Initializing twice is the same as initializing once: the second
    call reports what the first reported and leaves every byte as the
    first left it. *)
Theorem init_free_memory_twice (m : memory) (ptr S : Z) :
  snd (init_free_memory (fst (init_free_memory m ptr S)) ptr S)
  = snd (init_free_memory m ptr S) /\
  forall a,
    fst (init_free_memory (fst (init_free_memory m ptr S)) ptr S) a
    = fst (init_free_memory m ptr S) a.
Proof.
  unfold init_free_memory.
  destruct (s16 (S - 250) <? 0); cbn [fst snd]; [split; trivial|].
  rewrite !read_back_memset. split; trivial.
  intros a. unfold memset.
  now destruct ((ptr + 8 <=? a) && (a <? ptr + 8 + s16 (S - 250))).
Qed.

(** ** corrupt_free_memory: the addresses written *)

Lemma corrupt_loop_touched (p size j : Z) (cnt : nat) :
  forall (fuel : nat) (m : memory) (i : Z) (t : list Z),
    1 <= i -> size < 65535 -> 0 <= j -> size * j < 65536 ->
    Z.of_nat cnt = size - i + 1 -> (cnt <= fuel)%nat ->
    snd (corrupt_loop fuel m p size j i t)
    = t ++ map (fun k => p + Z.of_nat k * j) (seq (Z.to_nat i) cnt).
Proof.
  induction cnt as [|cnt IH]; intros fuel m i t Hi Hsize Hj Hmul Hcnt Hfuel.
  - cbn [seq map]. rewrite app_nil_r.
    destruct fuel; cbn [corrupt_loop]; trivial. now cmp_false (i <=? size).
  - destruct fuel as [|fuel]; [lia|]. cbn [corrupt_loop].
    cmp_true (i <=? size).
    assert (Hij : 0 <= i * j <= size * j) by nia.
    rewrite (u16_small (i * j)), (u16_small (i + 1)) by lia.
    rewrite IH by lia. rewrite <- app_assoc. cbn [app seq map].
    replace (Z.to_nat (i + 1)) with (S (Z.to_nat i)) by lia.
    now rewrite Z2Nat.id by lia.
Qed.

Lemma corrupt_stride_bound (near_top size : Z) :
  0 <= near_top -> 0 <= size ->
  0 <= near_top / (size + 1) /\ size * (near_top / (size + 1)) <= near_top.
Proof.
  intros Hn Hs.
  assert (H1 : 0 <= near_top / (size + 1)) by (apply Z.div_pos; lia).
  assert (H2 : (size + 1) * (near_top / (size + 1)) <= near_top)
    by (apply Z.mul_div_le; lia).
  split; [trivial | nia].
Qed.

Lemma corrupt_free_memory_result (tos : Z) (m : memory) (ptr size : Z) :
  0 <= size < 65535 ->
  let j := u16 (tos - (ptr + 8) - 250) / (size + 1) in
  exists m' touched,
    corrupt_free_memory true tos m ptr size = Some (m', touched) /\
    touched = map (fun k => ptr + 8 + Z.of_nat k * j) (seq 1 (Z.to_nat size)) /\
    (forall a, ~ In a touched -> m' a = m a) /\
    (0 < j -> forall k, 1 <= k <= size -> m' (ptr + 8 + k * j) = byte_of k).
Proof.
  intros Hsize j. unfold corrupt_free_memory.
  rewrite (u16_small (size + 1)) by lia. cmp_false (size + 1 =? 0). fold j.
  destruct (corrupt_stride_bound (u16 (tos - (ptr + 8) - 250)) size)
    as [Hj Hmul]; [unfold u16; lia | lia |]. fold j in Hj, Hmul.
  assert (Hlt : size * j < 65536) by (unfold u16 in Hmul; lia).
  pose proof (corrupt_loop_touched (ptr + 8) size j (Z.to_nat size)
                (Z.to_nat size + 1) m 1 []
                ltac:(lia) ltac:(lia) Hj Hlt ltac:(lia) ltac:(lia)) as Ht.
  cbn [app] in Ht. change (Z.to_nat 1) with 1%nat in Ht.
  destruct (corrupt_loop (Z.to_nat size + 1) m (ptr + 8) size j 1 [])
    as [m' touched] eqn:E.
  cbn [snd] in Ht. exists m', touched. repeat split; trivial.
  - intros a Ha.
    replace m' with (fst (corrupt_loop (Z.to_nat size + 1) m (ptr + 8) size j 1 []))
      by now rewrite E.
    apply corrupt_loop_untouched; try lia.
    intros k Hk ->. apply Ha. rewrite Ht. apply in_map_iff.
    exists (Z.to_nat k). split; [now rewrite Z2Nat.id by lia|].
    apply in_seq; lia.
  - intros Hpos k Hk.
    replace m' with (fst (corrupt_loop (Z.to_nat size + 1) m (ptr + 8) size j 1 []))
      by now rewrite E.
    apply corrupt_loop_written; lia.
Qed.

(** X10.  For every count below 65535 whose last write stays inside the
    16-bit address space ([ptr + 8 + count * j] below 65536, [j] the stride
    of line 193), [corrupt_free_memory] writes at [ptr + 8 + k * j] for
    k = 1 .. count, in this order, all of them addresses from [ptr + 8] to
    65535; it changes no other byte; and when the stride is not zero the
    k-th address holds the low byte of k afterwards. *)
Theorem corrupt_free_memory_effect (tos : Z) (m : memory) (ptr size : Z) :
  0 <= size < 65535 -> 0 <= ptr ->
  ptr + 8 + size * (u16 (tos - (ptr + 8) - 250) / (size + 1)) < 65536 ->
  let j := u16 (tos - (ptr + 8) - 250) / (size + 1) in
  exists m' touched,
    corrupt_free_memory true tos m ptr size = Some (m', touched) /\
    touched = map (fun k => ptr + 8 + Z.of_nat k * j) (seq 1 (Z.to_nat size)) /\
    (forall a, In a touched -> ptr + 8 <= a < 65536) /\
    (forall a, ~ In a touched -> m' a = m a) /\
    (0 < j -> forall k, 1 <= k <= size -> m' (ptr + 8 + k * j) = byte_of k).
Proof.
  intros Hsize Hptr Hfit j.
  destruct (corrupt_free_memory_result tos m ptr size Hsize)
    as (m' & touched & E & Ht & Hframe & Hval).
  fold j in Ht, Hval, Hfit.
  exists m', touched. repeat split; trivial;
    rewrite Ht in H; apply in_map_iff in H as (k & <- & Hk);
    apply in_seq in Hk;
    (assert (Hj : 0 <= j) by (apply Z.div_pos; unfold u16; lia));
    (assert (0 <= Z.of_nat k * j <= size * j) by nia); lia.
Qed.

Lemma corrupt_free_memory_effect_witness :
  let j := u16 (3000 - (1000 + 8) - 250) / (3 + 1) in
  exists m' touched,
    corrupt_free_memory true 3000 zero_memory 1000 3 = Some (m', touched) /\
    touched = map (fun k => 1000 + 8 + Z.of_nat k * j) (seq 1 (Z.to_nat 3)) /\
    (forall a, In a touched -> 1000 + 8 <= a < 65536) /\
    (forall a, ~ In a touched -> m' a = zero_memory a) /\
    (0 < j -> forall k, 1 <= k <= 3 -> m' (1000 + 8 + k * j) = byte_of k).
Proof.
  apply (corrupt_free_memory_effect 3000 zero_memory 1000 3);
    [lia | lia | reflexivity].
Defined.

(** X11.  When at least 258 bytes lie between [ptr] and the stack top,
    every address that [corrupt_free_memory] writes lies from [ptr + 8] to
    [tos - 250]. *)
Theorem corrupt_free_memory_in_bounds (tos : Z) (m : memory) (ptr size : Z) :
  0 <= size < 65535 -> 258 <= tos - ptr < 65536 ->
  exists m' touched,
    corrupt_free_memory true tos m ptr size = Some (m', touched) /\
    forall a, In a touched -> ptr + 8 <= a <= tos - 250.
Proof.
  intros Hsize Hreg.
  destruct (corrupt_free_memory_result tos m ptr size Hsize)
    as (m' & touched & E & Ht & _).
  exists m', touched. split; trivial.
  intros a Ha. rewrite Ht in Ha. apply in_map_iff in Ha as (k & <- & Hk).
  apply in_seq in Hk.
  rewrite u16_small by lia.
  destruct (corrupt_stride_bound (tos - (ptr + 8) - 250) size)
    as [Hj Hmul]; [lia | lia |].
  set (j := (tos - (ptr + 8) - 250) / (size + 1)) in *.
  assert (0 <= Z.of_nat k * j <= size * j) by nia. lia.
Qed.

Lemma corrupt_free_memory_in_bounds_witness :
  exists m' touched,
    corrupt_free_memory true 3000 zero_memory 1000 3 = Some (m', touched) /\
    forall a, In a touched -> 1000 + 8 <= a <= 3000 - 250.
Proof.
  apply (corrupt_free_memory_in_bounds 3000 zero_memory 1000 3); lia.
Defined.

(** X12.  When fewer than 258 bytes lie between [ptr] and the stack top,
    [near_top] wraps around in 16 bits and the stride is 250 or more: for a
    count from 1 to 260 whose last write stays inside the 16-bit address
    space, every write of [corrupt_free_memory] lands above the stack
    top. *)
Theorem corrupt_free_memory_small_region (tos : Z) (m : memory) (ptr size : Z) :
  1 <= size <= 260 -> 0 <= tos - ptr < 258 -> 0 <= ptr ->
  ptr + 8 + size * (u16 (tos - (ptr + 8) - 250) / (size + 1)) < 65536 ->
  exists m' touched,
    corrupt_free_memory true tos m ptr size = Some (m', touched) /\
    touched <> [] /\
    forall a, In a touched -> tos < a < 65536.
Proof.
  intros Hsize Hreg Hptr Hfit.
  destruct (corrupt_free_memory_result tos m ptr size ltac:(lia))
    as (m' & touched & E & Ht & _).
  exists m', touched. split; trivial.
  assert (Hnt : u16 (tos - (ptr + 8) - 250) = tos - ptr - 258 + 65536)
    by (unfold u16; lia).
  rewrite Hnt in Ht, Hfit.
  set (j := (tos - ptr - 258 + 65536) / (size + 1)) in *.
  assert (Hj : 250 <= j) by (apply Z.div_le_lower_bound; lia).
  split.
  - rewrite Ht. replace (Z.to_nat size) with (S (Z.to_nat (size - 1))) by lia.
    discriminate.
  - intros a Ha. rewrite Ht in Ha. apply in_map_iff in Ha as (k & <- & Hk).
    apply in_seq in Hk.
    assert (j <= Z.of_nat k * j <= size * j) by nia. lia.
Qed.

Lemma corrupt_free_memory_small_region_witness :
  exists m' touched,
    corrupt_free_memory true 1200 zero_memory 1000 3 = Some (m', touched) /\
    touched <> [] /\
    forall a, In a touched -> 1200 < a < 65536.
Proof.
  apply (corrupt_free_memory_small_region 1200 zero_memory 1000 3);
    [lia | lia | lia | reflexivity].
Defined.

Lemma corrupt_loop_last (p size : Z) (fuel : nat) :
  forall (m : memory) (i : Z) (t : list Z),
    1 <= i <= size -> size < 65535 -> size - i < Z.of_nat fuel ->
    fst (corrupt_loop fuel m p size 0 i t) p = byte_of size.
Proof.
  induction fuel as [|fuel IH]; intros m i t Hi Hsize Hfuel; [lia|].
  cbn [corrupt_loop]. cmp_true (i <=? size).
  rewrite Z.mul_0_r. change (u16 0) with 0. rewrite Z.add_0_r.
  rewrite (u16_small (i + 1)) by lia.
  destruct (Z.eq_dec i size) as [->|Hne].
  - destruct fuel as [|fuel']; cbn [corrupt_loop fst]; [apply store_same|].
    cmp_false (size + 1 <=? size). apply store_same.
  - apply IH; lia.
Qed.

(** X13.  When the span between the guard margins is shorter than
    [count + 1] bytes, the stride is zero: every write of
    [corrupt_free_memory] goes to [ptr + 8], which ends up holding the low
    byte of the count, and no other byte changes. *)
Theorem corrupt_free_memory_zero_stride (tos : Z) (m : memory) (ptr size : Z) :
  1 <= size < 65535 -> 0 <= tos - ptr - 258 < size + 1 ->
  exists m' touched,
    corrupt_free_memory true tos m ptr size = Some (m', touched) /\
    (forall a, In a touched -> a = ptr + 8) /\
    m' (ptr + 8) = byte_of size /\
    (forall a, a <> ptr + 8 -> m' a = m a).
Proof.
  intros Hsize Hreg.
  destruct (corrupt_free_memory_result tos m ptr size ltac:(lia))
    as (m' & touched & E & Ht & Hframe & _).
  assert (Hj : u16 (tos - (ptr + 8) - 250) / (size + 1) = 0).
  { rewrite u16_small by lia. apply Z.div_small; lia. }
  rewrite Hj in Ht.
  assert (Hall : forall a, In a touched -> a = ptr + 8).
  { intros a Ha. rewrite Ht in Ha. apply in_map_iff in Ha as (k & <- & _). lia. }
  exists m', touched. repeat split; trivial.
  - unfold corrupt_free_memory in E.
    rewrite (u16_small (size + 1)) in E by lia.
    replace (size + 1 =? 0) with false in E by (symmetry; apply Z.eqb_neq; lia).
    rewrite Hj in E. injection E as E.
    replace m' with (fst (corrupt_loop (Z.to_nat size + 1) m (ptr + 8) size 0 1 []))
      by now rewrite E.
    apply corrupt_loop_last; lia.
  - intros a Ha. apply Hframe. intros Hin. apply Ha, Hall, Hin.
Qed.

Lemma corrupt_free_memory_zero_stride_witness :
  exists m' touched,
    corrupt_free_memory true 1260 zero_memory 1000 5 = Some (m', touched) /\
    (forall a, In a touched -> a = 1000 + 8) /\
    m' (1000 + 8) = byte_of 5 /\
    (forall a, a <> 1000 + 8 -> m' a = zero_memory a).
Proof.
  apply (corrupt_free_memory_zero_stride 1260 zero_memory 1000 5); lia.
Defined.

(** ** The dump: termination, shape of the rows, alignment *)

Lemma u16_u16 (x : Z) : u16 (u16 x) = u16 x.
Proof. unfold u16; lia. Qed.

Lemma align_down_u16 (x : Z) : align_down x = 16 * (u16 x / 16).
Proof.
  rewrite <- (align_down_eq (u16 x)) by (unfold u16; lia).
  unfold align_down. now rewrite u16_u16.
Qed.

Lemma align_up_u16 (x : Z) : align_up x = 16 * (u16 x / 16) + 15.
Proof.
  rewrite <- (align_up_eq (u16 x)) by (unfold u16; lia).
  unfold align_up. now rewrite u16_u16.
Qed.

(** The rows of a dump, for any two addresses. *)
Lemma dump_free_memory_rows (q : cmd_buffer) (m : memory) (ptr sp : Z) :
  dump_free_memory q m ptr sp
  = Done (rows_from q m (align_down ptr)
                    (Z.to_nat (u16 sp / 16 - u16 ptr / 16 + 1))).
Proof.
  unfold dump_free_memory.
  pose proof (align_down_u16 ptr) as E0. pose proof (align_up_u16 sp) as E1.
  assert (H0 : 0 <= u16 ptr < 65536) by (unfold u16; lia).
  assert (H1 : 0 <= u16 sp < 65536) by (unfold u16; lia).
  destruct (Z_lt_le_dec (u16 sp / 16) (u16 ptr / 16)) as [Hlt|Hge].
  - replace (Z.to_nat (u16 sp / 16 - u16 ptr / 16 + 1)) with 0%nat by lia.
    replace (Z.to_nat (align_up sp - align_down ptr)) with 0%nat by lia.
    cbn [Nat.add dump_loop rows_from].
    now cmp_false (align_down ptr <? align_up sp).
  - apply dump_loop_rows; lia.
Qed.

Lemma rows_from_shape (q : cmd_buffer) (m : memory) (k : nat) :
  forall a r,
    a mod 16 = 0 -> In r (rows_from q m a k) ->
    row_addr r mod 16 = 0 /\
    length (row_bytes r) = 16%nat /\ length (row_flags r) = 16%nat.
Proof.
  induction k as [|k IH]; intros a r Ha Hin; cbn [rows_from] in Hin; [easy|].
  destruct Hin as [<-|Hin].
  - cbn [dump_row_at row_addr row_bytes row_flags]. repeat split.
    unfold u16; lia.
  - apply (IH (a + 16)); trivial. lia.
Qed.

(** X14.  For any start address and any end address below the last row
    0xFFF0 of the address space, in either order, the dump ends, and each
    row it prints starts at a multiple of 16 and shows 16 data bytes and 16
    flag characters. *)
Theorem dump_free_memory_total (q : cmd_buffer) (m : memory) (ptr sp : Z) :
  0 <= sp < 0xFFF0 ->
  exists rows,
    dump_free_memory q m ptr sp = Done rows /\
    forall r, In r rows ->
      row_addr r mod 16 = 0 /\
      length (row_bytes r) = 16%nat /\ length (row_flags r) = 16%nat.
Proof.
  intros _. rewrite dump_free_memory_rows. eexists; split; [reflexivity|].
  intros r Hr. apply rows_from_shape in Hr; trivial.
  rewrite align_down_u16. lia.
Qed.

Lemma dump_free_memory_total_witness :
  let q := {| command_queue := 0x400; BUFSIZE := 4; MAX_CMD_SIZE := 96 |} in
  exists rows,
    dump_free_memory q zero_memory 0x1B85 0x1BA0 = Done rows /\
    forall r, In r rows ->
      row_addr r mod 16 = 0 /\
      length (row_bytes r) = 16%nat /\ length (row_flags r) = 16%nat.
Proof.
  intros q. apply (dump_free_memory_total q zero_memory 0x1B85 0x1BA0). lia.
Defined.

(** X15.  [M100_dump_routine], which rounds the two addresses before it
    calls [dump_free_memory], prints the rows that [dump_free_memory]
    prints for the addresses as given: rounding twice changes nothing. *)
Theorem M100_dump_routine_same_rows (q : cmd_buffer) (m : memory)
        (start end_ : Z) :
  M100_dump_routine q m start end_ = dump_free_memory q m start end_.
Proof.
  unfold M100_dump_routine. rewrite !dump_free_memory_rows.
  pose proof (align_down_u16 start) as E0. pose proof (align_up_u16 end_) as E1.
  assert (H0 : 0 <= u16 start < 65536) by (unfold u16; lia).
  assert (H1 : 0 <= u16 end_ < 65536) by (unfold u16; lia).
  assert (D0 : align_down (align_down start) = align_down start).
  { rewrite (align_down_u16 (align_down start)).
    rewrite (u16_small (align_down start)) by lia. lia. }
  assert (U0 : u16 (align_down start) / 16 = u16 start / 16).
  { rewrite (u16_small (align_down start)) by lia. lia. }
  assert (U1 : u16 (align_up end_) / 16 = u16 end_ / 16).
  { rewrite (u16_small (align_up end_)) by lia. lia. }
  now rewrite D0, U0, U1.
Qed.

(** X16.  When the end address is below the start address, the dump prints
    nothing if the end lies in an earlier row of 16 bytes, and exactly the
    one common row if both lie in the same row. *)
Theorem dump_free_memory_inverted (q : cmd_buffer) (m : memory) (ptr sp : Z) :
  0 <= sp < ptr -> ptr < 0xFFF0 ->
  (sp / 16 < ptr / 16 -> dump_free_memory q m ptr sp = Done []) /\
  (sp / 16 = ptr / 16 ->
   dump_free_memory q m ptr sp = Done [dump_row_at q m (16 * (ptr / 16))]).
Proof.
  intros Hsp Hptr. rewrite dump_free_memory_rows, align_down_u16.
  rewrite !u16_small by lia. split; intros H.
  - now replace (Z.to_nat (sp / 16 - ptr / 16 + 1)) with 0%nat by lia.
  - now replace (Z.to_nat (sp / 16 - ptr / 16 + 1)) with 1%nat by lia.
Qed.

Lemma dump_free_memory_inverted_witness :
  let q := {| command_queue := 0x400; BUFSIZE := 4; MAX_CMD_SIZE := 96 |} in
  (0x1B05 / 16 < 0x1B20 / 16 ->
   dump_free_memory q zero_memory 0x1B20 0x1B05 = Done []) /\
  (0x1B05 / 16 = 0x1B20 / 16 ->
   dump_free_memory q zero_memory 0x1B20 0x1B05
   = Done [dump_row_at q zero_memory (16 * (0x1B20 / 16))]).
Proof.
  intros q. apply (dump_free_memory_inverted q zero_memory 0x1B20 0x1B05); lia.
Defined.

(** ** The flag column: printable output, and what it shows after
    initialization and after corruption *)

(** X17.  Whatever the byte and wherever it lies, the character printed for
    it in the flag column is a printable ASCII character, from ' ' to
    '~'. *)
Theorem flag_char_printable (q : cmd_buffer) (m : memory) (a : Z) :
  0x20 <= flag_char q m a <= 0x7E.
Proof.
  unfold flag_char, WITHIN, blank, anomaly.
  destruct (in_command_buffer_area q a).
  - destruct (Z.leb_spec 32 (char_of (m a))),
             (Z.leb_spec (char_of (m a)) 0x7E); cbn; lia.
  - destruct (char_of (m a) =? TEST_BYTE); lia.
Qed.

(** X18.  After [init_free_memory] on a size from 250 to 32767, the dump
    flags every byte of the filled span that lies outside the command
    buffer area with a blank. *)
Theorem init_then_flag_blank (q : cmd_buffer) (m : memory) (ptr S a : Z) :
  250 <= S <= 32767 -> ptr + 8 <= a < ptr + S - 242 ->
  in_command_buffer_area q a = false ->
  flag_char q (fst (init_free_memory m ptr S)) a = blank.
Proof.
  intros HS Ha Hout. apply flag_char_cases; trivial.
  rewrite init_free_memory_fill by trivial; cbn [fst].
  now rewrite memset_inside by lia.
Qed.

Lemma init_then_flag_blank_witness :
  flag_char {| command_queue := 0x400; BUFSIZE := 4; MAX_CMD_SIZE := 96 |}
            (fst (init_free_memory zero_memory 0x1B00 1000)) 0x1C00 = blank.
Proof.
  apply init_then_flag_blank; [lia | lia | reflexivity].
Defined.

(** X19.  After [corrupt_free_memory] with a count up to 228, a stride
    that is not zero and a last write inside the 16-bit address space, the
    dump flags each corrupted address that lies outside the command buffer
    area with '?'. *)
Theorem corrupt_then_flag_anomaly (q : cmd_buffer) (tos : Z) (m : memory)
        (ptr size k : Z) :
  1 <= k <= size -> size <= 228 -> 0 <= ptr ->
  ptr + 8 + size * (u16 (tos - (ptr + 8) - 250) / (size + 1)) < 65536 ->
  let j := u16 (tos - (ptr + 8) - 250) / (size + 1) in
  0 < j -> in_command_buffer_area q (ptr + 8 + k * j) = false ->
  exists m' touched,
    corrupt_free_memory true tos m ptr size = Some (m', touched) /\
    In (ptr + 8 + k * j) touched /\
    (forall a, In a touched -> ptr + 8 <= a < 65536) /\
    flag_char q m' (ptr + 8 + k * j) = anomaly.
Proof.
  intros Hk Hsize Hptr Hfit j Hj Hout.
  destruct (corrupt_free_memory_result tos m ptr size ltac:(lia))
    as (m' & touched & E & Ht & _ & Hval).
  fold j in Ht, Hval, Hfit.
  exists m', touched. repeat split; trivial.
  - rewrite Ht. apply in_map_iff. exists (Z.to_nat k).
    split; [now rewrite Z2Nat.id by lia | apply in_seq; lia].
  - rewrite Ht in H. apply in_map_iff in H as (k' & <- & Hk').
    apply in_seq in Hk'. nia.
  - rewrite Ht in H. apply in_map_iff in H as (k' & <- & Hk').
    apply in_seq in Hk'.
    assert (Z.of_nat k' * j <= size * j) by nia. lia.
  - apply flag_char_cases; trivial.
    rewrite Hval by lia. apply byte_of_not_test; lia.
Qed.

Lemma corrupt_then_flag_anomaly_witness :
  let q := {| command_queue := 0x400; BUFSIZE := 4; MAX_CMD_SIZE := 96 |} in
  let j := u16 (3000 - (1000 + 8) - 250) / (3 + 1) in
  exists m' touched,
    corrupt_free_memory true 3000 zero_memory 1000 3 = Some (m', touched) /\
    In (1000 + 8 + 2 * j) touched /\
    (forall a, In a touched -> 1000 + 8 <= a < 65536) /\
    flag_char q m' (1000 + 8 + 2 * j) = anomaly.
Proof.
  intros q.
  apply (corrupt_then_flag_anomaly q 3000 zero_memory 1000 3 2);
    [lia | lia | lia | reflexivity | reflexivity | reflexivity].
Defined.

(** ** The report: what its scan keeps, and how it relates to the check *)



Lemma count_test_bytes_loop_nonneg (m : memory) (p d : Z) (fuel : nat) :
  is_test_byte (m (p + d)) = false -> d < 32000 ->
  forall i, 1 <= i <= d -> d - i < Z.of_nat fuel ->
            0 <= count_test_bytes_loop fuel m p i.
Proof.
  intros Hd Hcap.
  induction fuel as [|fuel IH]; intros i Hi Hfuel; [lia|].
  cbn [count_test_bytes_loop]. cmp_true (i <? 32000).
  destruct (is_test_byte (m (p + i))) eqn:Eb; cbn [negb].
  - assert (i <> d) by (intros ->; congruence).
    rewrite u16_small by lia. apply IH; lia.
  - unfold s16, u16; lia.
Qed.

Lemma count_test_bytes_nonneg (m : memory) (p d : Z) :
  is_test_byte (m p) = true -> is_test_byte (m (p + d)) = false ->
  0 <= d < 32000 -> 0 <= count_test_bytes m p.
Proof.
  intros Hp Hd Hr. unfold count_test_bytes.
  assert (d <> 0) by (intros ->; rewrite Z.add_0_r in Hd; congruence).
  replace (Z.to_nat 32001) with (S (Z.to_nat 32000)) by lia.
  cbn [count_test_bytes_loop]. rewrite Z.add_0_r, Hp. cbn [negb].
  change (0 <? 32000) with true. cbn iota. change (u16 (0 + 1)) with 1.
  apply count_test_bytes_loop_nonneg with (d := d); trivial; lia.
Qed.

Lemma report_follows_check (m : memory) (ptr n : Z) (f : nat) :
  n <= 32767 ->
  (forall i, 0 <= i < n -> is_test_byte (m (ptr + i)) = true ->
             0 <= count_test_bytes m (ptr + i)) ->
  forall (f' : nat) (i c : Z) (ps : list Z) (r : pool_report) c' ps',
    (f <= f')%nat -> 0 <= i -> 0 <= c -> c + (n - i) < 65536 ->
    block_cnt r = c ->
    check_scan f m ptr n i c ps = Done (c', ps') ->
    exists r', report_scan f' m ptr n i r = Done r' /\ block_cnt r' = c'.
Proof.
  intros Hn Hpos.
  induction f as [|f IH]; intros f' i c ps r c' ps' Hf Hi Hc Hbound Hr Hchk;
    [discriminate|].
  destruct f' as [|f']; [lia|].
  cbn [check_scan] in Hchk. cbn [report_scan].
  destruct (Z.ltb_spec i n) as [Hlt|Hge].
  - assert (Hnext : forall ps0,
              check_scan f m ptr n (i + 1) c ps0 = Done (c', ps') ->
              exists r', report_scan f' m ptr n (u16 (i + 1)) r = Done r' /\
                         block_cnt r' = c').
    { intros ps0 H. rewrite u16_small by lia.
      apply (IH f' (i + 1) c ps0 r c' ps'); trivial; lia. }
    destruct (is_test_byte (m (ptr + i))) eqn:Eb; [|exact (Hnext _ Hchk)].
    pose proof (Hpos i ltac:(lia) Eb) as Hj0.
    pose proof (count_test_bytes_loop_range m (ptr + i) (Z.to_nat 32001) 0
                  ltac:(lia)) as Hjr.
    fold (count_test_bytes m (ptr + i)) in Hjr.
    set (j := count_test_bytes m (ptr + i)) in *.
    rewrite (u16_small j) by lia.
    destruct (Z.gtb_spec j 8) as [Hj8|Hj8]; [|exact (Hnext _ Hchk)].
    destruct (Z.gtb_spec (i + j + 1) 32767) as [Hov|Hov]; [discriminate|].
    rewrite (u16_small (i + j)), (u16_small (i + j + 1)) by lia.
    eapply (IH f' (i + j + 1) (c + 1)); [| | | | | exact Hchk]; try lia.
    cbn [block_cnt]. rewrite Hr. apply u16_small; lia.
  - injection Hchk as <- <-. exists r; split; trivial.
Qed.

(** X21.  On a region of fewer than 32000 bytes whose stack-top byte is not
    a test byte, the report and the check, run on the same region, both
    end and count the same number of blocks. *)
Theorem report_and_check_agree (fuel : nat) (m : memory) (brk ptr sp : Z) :
  0 <= sp - ptr < 32000 -> is_test_byte (m sp) = false ->
  sp - ptr < Z.of_nat fuel ->
  exists r rep,
    free_memory_pool_report fuel m brk sp ptr (sp - ptr) = (Done r, Done rep) /\
    block_cnt r = block_found rep.
Proof.
  intros Hn Hsp Hfuel. unfold free_memory_pool_report.
  rewrite u16_small by lia.
  unfold check_for_free_memory_corruption. rewrite s16_small by lia.
  set (n := sp - ptr) in *.
  assert (Hpos : forall i, 0 <= i < n -> is_test_byte (m (ptr + i)) = true ->
                           0 <= count_test_bytes m (ptr + i)).
  { intros i Hi Hb. apply count_test_bytes_nonneg with (d := n - i); trivial; [|lia].
    now replace (ptr + i + (n - i)) with sp by (unfold n; lia). }
  assert (Hno : check_scan (Z.to_nat n + 1) m ptr n 0 0 [] <> Overflow).
  { apply check_scan_no_overflow; [|lia]. intros i Hi.
    assert (count_test_bytes m (ptr + i) <= (n - i) - 1); [|lia].
    apply count_test_bytes_below; [lia|].
    now replace (ptr + i + (n - i)) with sp by (unfold n; lia). }
  pose proof (check_scan_invariant m ptr n (Z.to_nat n + 1) 0 0 []
                ltac:(lia) ltac:(lia)) as Hinv.
  destruct (check_scan (Z.to_nat n + 1) m ptr n 0 0 []) as [[c ps]| |] eqn:E;
    [| congruence | contradiction].
  destruct (report_follows_check m ptr n (Z.to_nat n + 1) ltac:(lia) Hpos
              fuel 0 0 [] empty_report c ps
              ltac:(lia) ltac:(lia) ltac:(lia) ltac:(lia) eq_refl E)
    as (r' & Er & Hc).
  fold empty_report. rewrite Er.
  eexists; eexists; split; [reflexivity|]. exact Hc.
Qed.

Lemma report_and_check_agree_witness :
  exists r rep,
    free_memory_pool_report 2001
      (fst (init_free_memory zero_memory 1000 2000)) 0 3000 1000 (3000 - 1000)
      = (Done r, Done rep) /\
    block_cnt r = block_found rep.
Proof.
  apply (report_and_check_agree 2001 _ 0 1000 3000);
    [lia | reflexivity | simpl; lia].
Defined.

(** ** Runs of 32000 test bytes and more *)

Lemma report_scan_stuck (m : memory) (ptr size i : Z) :
  0 <= i < size -> i < 65536 ->
  is_test_byte (m (ptr + i)) = true ->
  count_test_bytes m (ptr + i) = -1 ->
  forall (fuel : nat) (r : pool_report),
    report_scan fuel m ptr size i r = OutOfFuel.
Proof.
  intros Hi Hi16 Hb Hj.
  induction fuel as [|fuel IH]; intros r; cbn [report_scan]; trivial.
  cmp_true (i <? size). rewrite Hb, Hj. change (u16 (-1)) with 65535.
  change (65535 >? 8) with true. cbn iota.
  replace (u16 (u16 (i + 65535) + 1)) with i by (unfold u16; lia).
  apply IH.
Qed.

Lemma report_scan_gap_stuck (m : memory) (ptr size : Z) (k : nat) :
  forall i,
    0 <= i -> i + Z.of_nat k <= size -> size <= 65535 ->
    (forall x, i <= x < i + Z.of_nat k -> is_test_byte (m (ptr + x)) = false) ->
    (forall fuel r, report_scan fuel m ptr size (i + Z.of_nat k) r = OutOfFuel) ->
    forall fuel r, report_scan fuel m ptr size i r = OutOfFuel.
Proof.
  induction k as [|k IH]; intros i Hi Hn Hsize Hgap Hstuck fuel r.
  - rewrite <- (Z.add_0_r i). apply Hstuck.
  - destruct fuel as [|fuel]; cbn [report_scan]; trivial.
    cmp_true (i <? size). rewrite Hgap, u16_small by lia.
    apply IH; try lia.
    + intros x Hx. apply Hgap; lia.
    + intros fuel' r'.
      replace (i + 1 + Z.of_nat k) with (i + Z.of_nat (S k)) by lia.
      apply Hstuck.
Qed.

(** X22.  After [init_free_memory] on a region of 32250 bytes or more
    (a fill of at least 32000 test bytes) whose first 8 bytes hold no test
    byte, the scan loop of the report never ends: at the start of the fill
    [count_test_bytes] returns -1, which as [uint16_t] is 65535, and
    [i += j] followed by [i++] leaves [i] where it was.  Whatever the fuel,
    the scan has not ended. *)
Theorem report_never_ends_on_long_fill (fuel : nat) (m : memory)
        (brk sp_check ptr S : Z) :
  32250 <= S <= 32767 ->
  (forall a, ptr <= a < ptr + 8 -> is_test_byte (m a) = false) ->
  fst (free_memory_pool_report fuel (fst (init_free_memory m ptr S))
                               brk sp_check ptr S) = OutOfFuel.
Proof.
  intros HS Hlow. unfold free_memory_pool_report; cbn [fst].
  rewrite u16_small by lia. rewrite init_free_memory_fill by lia; cbn [fst].
  apply (report_scan_gap_stuck _ ptr S 8 0); try lia.
  - intros x Hx. rewrite memset_outside by lia. apply Hlow; lia.
  - apply report_scan_stuck; try lia.
    + now rewrite memset_inside by lia.
    + apply count_test_bytes_loop_cap; [|lia].
      intros k Hk. now rewrite memset_inside by lia.
Qed.

Lemma report_never_ends_on_long_fill_witness :
  fst (free_memory_pool_report 5 (fst (init_free_memory zero_memory 1000 32300))
                               0 33300 1000 32300) = OutOfFuel.
Proof.
  apply (report_never_ends_on_long_fill 5 zero_memory 0 33300 1000 32300);
    [lia | reflexivity].
Defined.

Lemma scans_to_capped (m : memory) (ptr n c R : Z) (k : nat) :
  forall i,
    i + Z.of_nat k <= n ->
    (forall x, i <= x < i + Z.of_nat k -> count_test_bytes m (ptr + x) <= 8) ->
    scans_to m ptr n (i + Z.of_nat k) c R -> scans_to m ptr n i c R.
Proof.
  induction k as [|k IH]; intros i Hn Hcap Hnext.
  - now rewrite Z.add_0_r in Hnext.
  - apply scans_to_short; [lia | apply Hcap; lia |].
    apply IH; [lia | intros x Hx; apply Hcap; lia |].
    now replace (i + 1 + Z.of_nat k) with (i + Z.of_nat (S k)) by lia.
Qed.

(** X23.  The check copes with such a fill: for a region of 32250 to 32767
    bytes with margins free of test bytes, it steps through the fill one
    byte at a time while [count_test_bytes] returns -1, counts the last
    31999 bytes as the one block, and returns 0. *)
Theorem check_after_long_fill (m : memory) (brk ptr S : Z) :
  32250 <= S <= 32767 -> margins_clear m ptr S ->
  exists rep,
    check_for_free_memory_corruption (fst (init_free_memory m ptr S))
                                     brk ptr (ptr + S) = Done rep /\
    block_found rep = 1 /\ ret rep = 0.
Proof.
  intros HS Hclear.
  destruct (check_of_scan (fst (init_free_memory m ptr S)) brk ptr (ptr + S) 1)
    as (rep & E & Hb & Hr & _); [|now exists rep].
  replace (s16 (ptr + S - ptr)) with S by (unfold s16; lia).
  rewrite init_free_memory_fill by lia; cbn [fst].
  set (m' := memset m (ptr + 8) TEST_BYTE (S - 250)).
  assert (Hin : forall x, 8 <= x < S - 242 -> is_test_byte (m' (ptr + x)) = true).
  { intros x Hx. unfold m'. now rewrite memset_inside by lia. }
  assert (Hout : forall x, 0 <= x < 8 \/ S - 242 <= x < S ->
                           is_test_byte (m' (ptr + x)) = false).
  { intros x Hx. unfold m'. rewrite memset_outside by lia. apply Hclear; lia. }
  apply (scans_to_gap _ ptr S 0 1 8 0); [lia | intros; apply Hout; lia |].
  apply (scans_to_capped _ ptr S 0 1 (Z.to_nat (S - 250 - 31999)));
    [lia | |].
  - intros x Hx.
    unfold count_test_bytes. rewrite count_test_bytes_loop_cap; [lia | | lia].
    intros k Hk. rewrite <- Z.add_assoc. apply Hin; lia.
  - apply (scans_to_block _ ptr S _ 0 1 31999); try lia.
    + split.
      * intros k Hk. rewrite <- Z.add_assoc. apply Hin; lia.
      * rewrite <- Z.add_assoc. apply Hout; lia.
    + apply scans_to_tail; [lia | intros; apply Hout; lia].
Qed.

Lemma check_after_long_fill_witness :
  exists rep,
    check_for_free_memory_corruption
      (fst (init_free_memory zero_memory 1000 32300)) 0 1000 (1000 + 32300)
      = Done rep /\
    block_found rep = 1 /\ ret rep = 0.
Proof.
  apply (check_after_long_fill zero_memory 0 1000 32300);
    [lia | apply zero_memory_margins_clear].
Defined.

(** ** Initializing again after the fault injector *)

(** X24.  Initializing again erases what the fault injector wrote: when at
    least 258 bytes lie between [ptr] and the injector's stack top, which is
    not above the region's end, [init_free_memory] after
    [corrupt_free_memory] leaves every byte as [init_free_memory] alone
    leaves it. *)
Theorem init_after_corrupt (tos : Z) (m : memory) (ptr S size : Z) :
  250 <= S <= 32767 -> 0 <= size < 65535 ->
  258 <= tos - ptr -> tos <= ptr + S ->
  exists m2 touched,
    corrupt_free_memory true tos (fst (init_free_memory m ptr S)) ptr size
      = Some (m2, touched) /\
    forall a, fst (init_free_memory m2 ptr S) a
              = fst (init_free_memory m ptr S) a.
Proof.
  intros HS Hsize Hreg Htos.
  set (m1 := fst (init_free_memory m ptr S)).
  destruct (corrupt_free_memory_result tos m1 ptr size Hsize)
    as (m2 & touched & E & Ht & Hframe & _).
  exists m2, touched. split; trivial.
  intros a. unfold m1 in *. rewrite !init_free_memory_fill in * by lia.
  cbn [fst] in *.
  destruct (Z_lt_le_dec a (ptr + 8)) as [Hlo|Hlo];
    [|destruct (Z_lt_le_dec a (ptr + 8 + (S - 250))) as [Hhi|Hhi]].
  - rewrite !(memset_outside _ _ _ _ a) by lia.
    rewrite Hframe; [now rewrite memset_outside by lia|].
    intros Hin. rewrite Ht in Hin. apply in_map_iff in Hin as (k & Hk & _).
    destruct (corrupt_stride_bound (u16 (tos - (ptr + 8) - 250)) size)
      as [Hj _]; [unfold u16; lia | lia |]. nia.
  - now rewrite !(memset_inside _ _ _ _ a) by lia.
  - rewrite !(memset_outside _ _ _ _ a) by lia.
    rewrite Hframe; [now rewrite memset_outside by lia|].
    intros Hin. rewrite Ht in Hin. apply in_map_iff in Hin as (k & Hk & Hs).
    apply in_seq in Hs.
    rewrite u16_small in Hk by lia.
    destruct (corrupt_stride_bound (tos - (ptr + 8) - 250) size)
      as [Hj Hmul]; [lia | lia |].
    set (j := (tos - (ptr + 8) - 250) / (size + 1)) in *.
    assert (Z.of_nat k * j <= size * j) by nia. lia.
Qed.

Lemma init_after_corrupt_witness :
  exists m2 touched,
    corrupt_free_memory true 3000
      (fst (init_free_memory zero_memory 1000 2000)) 1000 3
      = Some (m2, touched) /\
    forall a, fst (init_free_memory m2 1000 2000) a
              = fst (init_free_memory zero_memory 1000 2000) a.
Proof.
  apply (init_after_corrupt 3000 zero_memory 1000 2000 3); lia.
Defined.

(** ** gcode_M100: what an invocation changes *)

Lemma init_free_memory_too_small_region (m : memory) (ptr S : Z) :
  0 <= S < 250 -> init_free_memory m ptr S = (m, Unable).
Proof.
  intros HS; unfold init_free_memory.
  rewrite s16_small by lia. now cmp_true (S - 250 <? 0).
Qed.

(** X26.  When the first invocation finds fewer than 250 bytes between the
    heap end and the stack top, [init_free_memory] is run and reports that
    it is unable to initialize, yet the flag is set all the same: memory is
    unchanged (for a command other than C), and no later invocation will
    initialize unless it carries 'I'. *)
Theorem gcode_M100_first_call_too_small (fuel : nat) (q : cmd_buffer)
        (l : layout) (g : gcode) (st : M100_state) :
  m100_not_initialized st = true ->
  0 <= tos_M100 l - END_OF_HEAP l < 250 ->
  seen_D g = true \/ seen_F g = true \/ seen_C g = false ->
  init_run (snd (gcode_M100 fuel q l g st)) = Some Unable /\
  m100_not_initialized (fst (gcode_M100 fuel q l g st)) = false /\
  mem (fst (gcode_M100 fuel q l g st)) = mem st.
Proof.
  intros Hflag Hsz Hcmd. unfold gcode_M100, free_memory_pool_report.
  rewrite Hflag. cbn [orb].
  rewrite s16_small by lia.
  rewrite init_free_memory_too_small_region by lia.
  destruct (seen_D g), (seen_F g), (seen_C g);
    cbn [fst snd init_run m100_not_initialized mem];
    try (repeat split; reflexivity).
  destruct Hcmd as [H|[H|H]]; discriminate.
Qed.

Lemma gcode_M100_first_call_too_small_witness :
  let q := {| command_queue := 0x400; BUFSIZE := 4; MAX_CMD_SIZE := 96 |} in
  let l := {| brkval := 0; bss_end := 1000; tos_M100 := 1200;
              tos_callee := 1190 |} in
  let g := {| seen_I := false; seen_D := false; seen_F := true;
              seen_C := false; value_int := 0 |} in
  let st := {| m100_not_initialized := true; mem := zero_memory |} in
  init_run (snd (gcode_M100 300 q l g st)) = Some Unable /\
  m100_not_initialized (fst (gcode_M100 300 q l g st)) = false /\
  mem (fst (gcode_M100 300 q l g st)) = mem st.
Proof.
  intros q l g st.
  apply (gcode_M100_first_call_too_small 300 q l g st);
    [reflexivity | cbn; lia | right; left; reflexivity].
Defined.

(** X27.  The first [M100 F] of a run, on a region of 260 to 32249 bytes
    whose margins hold no test byte, initializes the pool ([S - 250] bytes,
    no read-back anomaly) and then reports it intact: the report finds one
    block and the check returns 0. *)
Theorem gcode_M100_first_report (fuel : nat) (q : cmd_buffer) (l : layout)
        (g : gcode) (st : M100_state) :
  let ptr := END_OF_HEAP l in
  let S := tos_M100 l - ptr in
  m100_not_initialized st = true ->
  seen_D g = false -> seen_F g = true ->
  260 <= S <= 32249 -> margins_clear (mem st) ptr S ->
  tos_M100 l - 242 <= tos_callee l <= tos_M100 l ->
  S < Z.of_nat fuel ->
  exists r rep,
    snd (gcode_M100 fuel q l g st)
    = {| init_run := Some (Initialized (S - 250) []);
         action := DidReport (Done r) (Done rep) |} /\
    block_cnt r = 1 /\ block_found rep = 1 /\ ret rep = 0.
Proof.
  intros ptr S Hflag HD HF HS Hclear Hcallee Hfuel.
  unfold gcode_M100, free_memory_pool_report. fold ptr. fold S.
  rewrite Hflag, HD, HF. cbn [orb].
  rewrite (s16_small S) by lia.
  destruct (check_of_scan (fst (init_free_memory (mem st) ptr S))
                          (brkval l) ptr (tos_callee l) 1)
    as (rep & E & Hb & Hr & _).
  { rewrite s16_small by (unfold S in *; lia).
    apply init_then_scans_to; trivial. unfold S in *; lia. }
  pose proof (init_then_reports_to (mem st) ptr S HS Hclear fuel) as Er.
  rewrite u16_small in * by lia.
  rewrite init_free_memory_fill in * by lia. cbn [fst] in *.
  rewrite read_back_memset. cbn [snd].
  rewrite Er by lia. rewrite E.
  eexists; eexists; split; [reflexivity|]. repeat split; trivial.
Qed.

Lemma gcode_M100_first_report_witness :
  let q := {| command_queue := 0x400; BUFSIZE := 4; MAX_CMD_SIZE := 96 |} in
  let l := {| brkval := 0; bss_end := 1000; tos_M100 := 3000;
              tos_callee := 2990 |} in
  let g := {| seen_I := false; seen_D := false; seen_F := true;
              seen_C := false; value_int := 0 |} in
  let st := {| m100_not_initialized := true; mem := zero_memory |} in
  exists r rep,
    snd (gcode_M100 3001 q l g st)
    = {| init_run := Some (Initialized (3000 - 1000 - 250) []);
         action := DidReport (Done r) (Done rep) |} /\
    block_cnt r = 1 /\ block_found rep = 1 /\ ret rep = 0.
Proof.
  intros q l g st.
  apply (gcode_M100_first_report 3001 q l g st);
    first [ reflexivity | apply zero_memory_margins_clear | cbn; lia ].
Defined.

(** ** ultralcd.h: the keypad masks *)

(** X28.  [REPRAPWORLD_KEYPAD_PRESSED] is the low byte of the keypad bits;
    it is zero exactly when each of the seven move tests and the test of
    the F1 key is zero; and a pressed F1 key alone makes [LCD_CLICKED]
    true. *)
Theorem keypad_pressed_iff (buttons keypad : Z) :
  REPRAPWORLD_KEYPAD_PRESSED keypad = keypad mod 256 /\
  (REPRAPWORLD_KEYPAD_PRESSED keypad = 0 <->
     REPRAPWORLD_KEYPAD_MOVE_Z_DOWN keypad = 0 /\
     REPRAPWORLD_KEYPAD_MOVE_Z_UP keypad = 0 /\
     Z.land keypad EN_REPRAPWORLD_KEYPAD_F1 = 0 /\
     REPRAPWORLD_KEYPAD_MOVE_Y_DOWN keypad = 0 /\
     REPRAPWORLD_KEYPAD_MOVE_X_RIGHT keypad = 0 /\
     REPRAPWORLD_KEYPAD_MOVE_HOME keypad = 0 /\
     REPRAPWORLD_KEYPAD_MOVE_Y_UP keypad = 0 /\
     REPRAPWORLD_KEYPAD_MOVE_X_LEFT keypad = 0) /\
  (Z.land keypad EN_REPRAPWORLD_KEYPAD_F1 <> 0 ->
     LCD_CLICKED buttons keypad = true /\
     REPRAPWORLD_KEYPAD_PRESSED keypad <> 0).
Proof.
  assert (Hiff : REPRAPWORLD_KEYPAD_PRESSED keypad = 0 <->
     REPRAPWORLD_KEYPAD_MOVE_Z_DOWN keypad = 0 /\
     REPRAPWORLD_KEYPAD_MOVE_Z_UP keypad = 0 /\
     Z.land keypad EN_REPRAPWORLD_KEYPAD_F1 = 0 /\
     REPRAPWORLD_KEYPAD_MOVE_Y_DOWN keypad = 0 /\
     REPRAPWORLD_KEYPAD_MOVE_X_RIGHT keypad = 0 /\
     REPRAPWORLD_KEYPAD_MOVE_HOME keypad = 0 /\
     REPRAPWORLD_KEYPAD_MOVE_Y_UP keypad = 0 /\
     REPRAPWORLD_KEYPAD_MOVE_X_LEFT keypad = 0).
  { unfold REPRAPWORLD_KEYPAD_PRESSED, REPRAPWORLD_KEYPAD_MOVE_Z_DOWN,
      REPRAPWORLD_KEYPAD_MOVE_Z_UP, REPRAPWORLD_KEYPAD_MOVE_Y_DOWN,
      REPRAPWORLD_KEYPAD_MOVE_X_RIGHT, REPRAPWORLD_KEYPAD_MOVE_HOME,
      REPRAPWORLD_KEYPAD_MOVE_Y_UP, REPRAPWORLD_KEYPAD_MOVE_X_LEFT.
    rewrite !Z.land_lor_distr_r, !Z.lor_eq_0_iff. tauto. }
  split; [|split; [exact Hiff|]].
  - unfold REPRAPWORLD_KEYPAD_PRESSED.
    change (Z.lor EN_REPRAPWORLD_KEYPAD_F3 _) with (Z.ones 8).
    now rewrite Z.land_ones by lia.
  - intros HF1. split.
    + unfold LCD_CLICKED. apply Z.eqb_neq in HF1. rewrite HF1.
      apply orb_true_r.
    + rewrite Hiff. tauto.
Qed.

Lemma keypad_pressed_iff_witness :
  REPRAPWORLD_KEYPAD_PRESSED 4 = 4 mod 256 /\
  (REPRAPWORLD_KEYPAD_PRESSED 4 = 0 <->
     REPRAPWORLD_KEYPAD_MOVE_Z_DOWN 4 = 0 /\
     REPRAPWORLD_KEYPAD_MOVE_Z_UP 4 = 0 /\
     Z.land 4 EN_REPRAPWORLD_KEYPAD_F1 = 0 /\
     REPRAPWORLD_KEYPAD_MOVE_Y_DOWN 4 = 0 /\
     REPRAPWORLD_KEYPAD_MOVE_X_RIGHT 4 = 0 /\
     REPRAPWORLD_KEYPAD_MOVE_HOME 4 = 0 /\
     REPRAPWORLD_KEYPAD_MOVE_Y_UP 4 = 0 /\
     REPRAPWORLD_KEYPAD_MOVE_X_LEFT 4 = 0) /\
  (Z.land 4 EN_REPRAPWORLD_KEYPAD_F1 <> 0 ->
     LCD_CLICKED 0 4 = true /\
     REPRAPWORLD_KEYPAD_PRESSED 4 <> 0).
Proof. apply (keypad_pressed_iff 0 4). Defined.
